(** * cloudtrail-console-actions: the record filter of [main.go]

    A shallow embedding of the Lambda handler of [main.go]: [S3Handler],
    [Stream], [fetchLogFromS3], [readLogFile], [FilterRecords],
    [SendSlackNotification], [getEnv] and [matchString], together with the
    fragments of the Go standard library they rest on ([strings], [unicode/utf8],
    [regexp], [fmt]), and the properties of the filter proved about them.

    Go strings are byte sequences: they are modelled by [string] (a list of
    8-bit [ascii]).  Decoded JSON ([interface{}]) is the inductive [value];
    a [map[string]interface{}] is a [gmap string value]. *)

From Stdlib Require Import ZArith String Ascii List Bool Lia PrimFloat.
From stdpp Require Import base option list gmap strings.

Set Warnings "-register-all".
Local Open Scope Z_scope.

(** ** Part I: definitions *)

(** *** [strings]: prefix, suffix, substring, split *)

Module GoStrings.

(** [strings.HasPrefix(s, prefix)]. *)
Fixpoint HasPrefix (s prefix : string) {struct prefix} : bool :=
  match prefix, s with
  | EmptyString, _ => true
  | String _ _, EmptyString => false
  | String p prefix', String c s' => if Ascii.eqb c p then HasPrefix s' prefix' else false
  end.

(** [strings.HasSuffix(s, suffix)]: some tail of [s] is [suffix]. *)
Fixpoint HasSuffix (s suffix : string) : bool :=
  if String.eqb s suffix then true
  else match s with
       | EmptyString => false
       | String _ s' => HasSuffix s' suffix
       end.

(** [strings.Contains(s, substr)], that is [Index(s, substr) >= 0]. *)
Fixpoint Contains (s substr : string) : bool :=
  if HasPrefix s substr then true
  else match s with
       | EmptyString => false
       | String _ s' => Contains s' substr
       end.

(** [strings.Split(s, sep)] for a separator that is not empty (the program
    splits on [":"] only).  The scan cuts at the leftmost occurrence of [sep],
    skips it, and goes on; [skip] counts the bytes of a separator still to be
    passed over and [cur] is the piece read so far. *)
Fixpoint Split_scan (sep : string) (skip : nat) (cur : string) (s : string) : list string :=
  match s with
  | EmptyString => [cur]
  | String c s' =>
    match skip with
    | S k => Split_scan sep k cur s'
    | O =>
      if HasPrefix s sep
      then cur :: Split_scan sep (Nat.pred (String.length sep)) EmptyString s'
      else Split_scan sep O (cur +:+ String c EmptyString) s'
    end
  end.

Definition Split (s sep : string) : list string := Split_scan sep O EmptyString s.

End GoStrings.

(** *** [unicode/utf8]: runes of a string *)

Module GoUtf8.

Definition RuneError : Z := 0xFFFD.
Definition MaxRune : Z := 0x10FFFF.

(** The value of a byte. *)
Definition byte_val (c : ascii) : Z := Z.of_N (N_of_ascii c).
Definition byte_of (b : Z) : ascii := ascii_of_N (Z.to_N (Z.land b 0xFF)).

(** The table [first] with [acceptRanges]: for a leading byte that opens a
    multi-byte sequence, the length of the sequence and the range its second
    byte must lie in; [None] for a byte that cannot lead (the table's [xx]). *)
Definition first (s0 : Z) : option (nat * Z * Z) :=
  if (0xC2 <=? s0) && (s0 <=? 0xDF) then Some (2%nat, 0x80, 0xBF)
  else if s0 =? 0xE0 then Some (3%nat, 0xA0, 0xBF)
  else if (0xE1 <=? s0) && (s0 <=? 0xEC) then Some (3%nat, 0x80, 0xBF)
  else if s0 =? 0xED then Some (3%nat, 0x80, 0x9F)
  else if (0xEE <=? s0) && (s0 <=? 0xEF) then Some (3%nat, 0x80, 0xBF)
  else if s0 =? 0xF0 then Some (4%nat, 0x90, 0xBF)
  else if (0xF1 <=? s0) && (s0 <=? 0xF3) then Some (4%nat, 0x80, 0xBF)
  else if s0 =? 0xF4 then Some (4%nat, 0x80, 0x8F)
  else None.

Definition continuation (b : Z) : bool := (0x80 <=? b) && (b <=? 0xBF).

(** [utf8.DecodeRuneInString]: the first rune of [s] and its width in bytes;
    an invalid or truncated sequence is [RuneError] of width 1. *)
Definition DecodeRuneInString (s : string) : Z * nat :=
  match s with
  | EmptyString => (RuneError, 0%nat)
  | String c0 t0 =>
    let s0 := byte_val c0 in
    if s0 <? 0x80 then (s0, 1%nat)
    else match first s0 with
    | None => (RuneError, 1%nat)
    | Some (sz, lo, hi) =>
      if (String.length s <? sz)%nat then (RuneError, 1%nat)
      else match t0 with
      | EmptyString => (RuneError, 1%nat)
      | String c1 t1 =>
        let s1 := byte_val c1 in
        if (s1 <? lo) || (hi <? s1) then (RuneError, 1%nat)
        else if (sz <=? 2)%nat
        then (Z.lor (Z.shiftl (Z.land s0 0x1F) 6) (Z.land s1 0x3F), 2%nat)
        else match t1 with
        | EmptyString => (RuneError, 1%nat)
        | String c2 t2 =>
          let s2 := byte_val c2 in
          if negb (continuation s2) then (RuneError, 1%nat)
          else if (sz <=? 3)%nat
          then (Z.lor (Z.lor (Z.shiftl (Z.land s0 0x0F) 12)
                             (Z.shiftl (Z.land s1 0x3F) 6))
                      (Z.land s2 0x3F), 3%nat)
          else match t2 with
          | EmptyString => (RuneError, 1%nat)
          | String c3 _ =>
            let s3 := byte_val c3 in
            if negb (continuation s3) then (RuneError, 1%nat)
            else (Z.lor (Z.lor (Z.lor (Z.shiftl (Z.land s0 0x07) 18)
                                      (Z.shiftl (Z.land s1 0x3F) 12))
                               (Z.shiftl (Z.land s2 0x3F) 6))
                        (Z.land s3 0x3F), 4%nat)
          end
        end
      end
    end
  end.

(** The runes of [s] in order, as [for _, r := range s] yields them: at each
    byte either a rune starts there, or the byte belongs to the rune decoded
    before ([skip] bytes of it are still ahead). *)
Fixpoint runes_from (skip : nat) (s : string) : list Z :=
  match s with
  | EmptyString => []
  | String _ s' =>
    match skip with
    | S k => runes_from k s'
    | O => let '(r, w) := DecodeRuneInString s in r :: runes_from (Nat.pred w) s'
    end
  end.

Definition runes (s : string) : list Z := runes_from 0 s.

(** [utf8.AppendRune]: the encoding of a rune. *)
Definition EncodeRune (r : Z) : string :=
  let tx b := byte_of (Z.lor 0x80 (Z.land b 0x3F)) in
  let enc3 r :=
    String (byte_of (Z.lor 0xE0 (Z.shiftr r 12)))
      (String (tx (Z.shiftr r 6)) (String (tx r) EmptyString)) in
  if (0 <=? r) && (r <=? 0x7F) then String (byte_of r) EmptyString
  else if (0 <=? r) && (r <=? 0x7FF)
  then String (byte_of (Z.lor 0xC0 (Z.shiftr r 6))) (String (tx r) EmptyString)
  else if (r <? 0) || (MaxRune <? r) || ((0xD800 <=? r) && (r <=? 0xDFFF))
  then enc3 RuneError
  else if r <=? 0xFFFF then enc3 r
  else String (byte_of (Z.lor 0xF0 (Z.shiftr r 18)))
         (String (tx (Z.shiftr r 12)) (String (tx (Z.shiftr r 6)) (String (tx r) EmptyString))).

End GoUtf8.

Import GoStrings GoUtf8.

(** *** [regexp]: the fragment of RE2 syntax the program's patterns use *)

Module GoRegexp.

(** Parsed expressions, named after the operators of [regexp/syntax]. *)
Inductive regex : Type :=
| NoMatch
| EmptyMatch
| Literal (r : Z)
| AnyCharNotNL
| Concat (a b : regex)
| Alternate (a b : regex)
| Star (a : regex).

(** The runes with a meaning of their own in a pattern, [.] apart. *)
Definition meta : list Z :=
  Eval cbv in runes "\+*?()|[]{}^$".

(** One rune of a pattern as an expression: [.] is any character but a newline
    (the flags [MatchString] compiles with leave "dot matches newline" off),
    any rune that is no operator stands for itself. *)
Definition atom (r : Z) : option regex :=
  if r =? 46 then Some AnyCharNotNL
  else if existsb (Z.eqb r) meta then None
  else Some (Literal r).

(** A pattern made of literal runes, [.] and the postfix [*], which binds to
    the single rune before it.  [None] stands for a pattern that does not
    compile and for one outside this fragment alike. *)
Fixpoint parse (p : list Z) : option regex :=
  match p with
  | [] => Some EmptyMatch
  | r :: p' =>
    match atom r with
    | None => None
    | Some a =>
      match p' with
      | 42 :: p'' => option_map (Concat (Star a)) (parse p'')
      | _ => option_map (Concat a) (parse p')
      end
    end
  end.

Definition Compile (expr : string) : option regex := parse (runes expr).

Fixpoint nullable (e : regex) : bool :=
  match e with
  | NoMatch | Literal _ | AnyCharNotNL => false
  | EmptyMatch | Star _ => true
  | Concat a b => nullable a && nullable b
  | Alternate a b => nullable a || nullable b
  end.

(** What is left of [e] after the rune [c]. *)
Fixpoint deriv (c : Z) (e : regex) : regex :=
  match e with
  | NoMatch | EmptyMatch => NoMatch
  | Literal r => if c =? r then EmptyMatch else NoMatch
  | AnyCharNotNL => if c =? 10 then NoMatch else EmptyMatch
  | Concat a b =>
    if nullable a then Alternate (Concat (deriv c a) b) (deriv c b)
    else Concat (deriv c a) b
  | Alternate a b => Alternate (deriv c a) (deriv c b)
  | Star a => Concat (deriv c a) (Star a)
  end.

(** Some prefix of the input matches [e]. *)
Fixpoint matchHere (e : regex) (input : list Z) : bool :=
  if nullable e then true
  else match input with
       | [] => false
       | c :: rest => matchHere (deriv c e) rest
       end.

(** The method [MatchString] of a compiled expression: the input contains a match of [e], starting
    anywhere and ending anywhere. *)
Fixpoint search (e : regex) (input : list Z) : bool :=
  if matchHere e input then true
  else match input with
       | [] => false
       | _ :: rest => search e rest
       end.

(** [regexp.MatchString(pattern, s)]: the matched flag and whether the pattern
    compiled; the input is read rune by rune, an invalid byte as [RuneError]. *)
Definition MatchString (pattern s : string) : bool * bool :=
  match Compile pattern with
  | Some re => (search re (runes s), true)
  | None => (false, false)
  end.

(** The words an expression matches. *)
Inductive matches : regex -> list Z -> Prop :=
| m_empty : matches EmptyMatch []
| m_literal r : matches (Literal r) [r]
| m_any r : r <> 10 -> matches AnyCharNotNL [r]
| m_concat a b u v : matches a u -> matches b v -> matches (Concat a b) (u ++ v)
| m_alt_l a b u : matches a u -> matches (Alternate a b) u
| m_alt_r a b u : matches b u -> matches (Alternate a b) u
| m_star_nil a : matches (Star a) []
| m_star_cons a u v : matches a u -> matches (Star a) v -> matches (Star a) (u ++ v).

End GoRegexp.

Import GoRegexp.

(** *** Decoded JSON and the program's surroundings *)

(** What [encoding/json] stores in an [interface{}]. *)
Inductive value : Type :=
| VNil
| VBool (b : bool)
| VNumber (f : float)
| VString (s : string)
| VArray (l : list value)
| VObject (m : gmap string value).

(** [map[string]interface{}]: an audit record, or one of its nested objects. *)
Abbreviation object := (gmap string value).

(** [m[k]]: the zero value [nil] for a key that is absent (also in a nil map). *)
Definition index (m : object) (k : string) : value := default VNil (m !! k).

(** [v.(map[string]interface{})] and [v.(string)] in their two-result form. *)
Definition asMap (v : value) : object * bool :=
  match v with VObject m => (m, true) | _ => (∅, false) end.

Definition asString (v : value) : string * bool :=
  match v with VString s => (s, true) | _ => (EmptyString, false) end.

(** [v == "literal"]: the dynamic type is [string] and the strings are equal. *)
Definition eqString (v : value) (lit : string) : bool :=
  match v with VString s => String.eqb s lit | _ => false end.

Definition isNil (v : value) : bool :=
  match v with VNil => true | _ => false end.

(** The dynamic type's name, as a failed type assertion prints it. *)
Definition typeName (v : value) : string :=
  match v with
  | VNil => "nil"
  | VBool _ => "bool"
  | VNumber _ => "float64"
  | VString _ => "string"
  | VArray _ => "[]interface {}"
  | VObject _ => "map[string]interface {}"
  end.

(** [events.S3EventRecord], the fields the program reads. *)
Record S3EventRecord : Type := {
  AWSRegion : string;
  BucketName : string;
  ObjectKey : string
}.

(** [s3.GetObjectOutput], the fields the program reads. *)
Record GetObjectOutput : Type := {
  ContentType : option string;
  Body : string
}.

(** [CloudTrailFile]. *)
Record CloudTrailFile : Type := {
  Records : list object
}.

Inductive GetObjectError : Type :=
| AwsError (msg : string)
| OtherError (msg : string).

(** Library behaviour outside the fragments modelled here: the Unicode tables
    for runes above ASCII, how [fmt] renders a number, an array or an object
    under [%s] and an S3 event under [%v], gzip, the JSON decoder, and the
    check of a URL by [http.NewRequest]. *)
Record Lib : Type := {
  unicode_ToTitle : Z -> Z;
  unicode_IsLetter : Z -> bool;
  unicode_IsDigit : Z -> bool;
  unicode_IsSpace : Z -> bool;
  fmt_operand : value -> string;
  fmt_S3Event : list S3EventRecord -> string;
  gzip_NewReader : string -> option string;
  gzip_Read : string -> string + string;
  json_Unmarshal : string -> CloudTrailFile + string;
  http_NewRequest : string -> option string
}.

(** The world the handler runs in: its environment variables, the bucket
    behind the S3 client (with the client's configuration as [%+v] prints it),
    and the answer of the webhook (a response body, or an error). *)
Record World : Type := {
  LookupEnv : string -> option string;
  GetObject : string -> string -> GetObjectOutput + GetObjectError;
  clientConfig : string;
  http_Do : string -> string -> string + string
}.

(** The levels of [logrus], most severe first. *)
Inductive Level : Type :=
| PanicLevel | FatalLevel | ErrorLevel | WarnLevel | InfoLevel | DebugLevel | TraceLevel.

Definition level_rank (l : Level) : nat :=
  match l with
  | PanicLevel => 0 | FatalLevel => 1 | ErrorLevel => 2 | WarnLevel => 3
  | InfoLevel => 4 | DebugLevel => 5 | TraceLevel => 6
  end.

(** The standard logger starts at [InfoLevel]; [main] sets its formatter and
    nothing else, so that is its level throughout. *)
Definition stdLevel : Level := InfoLevel.

Definition IsLevelEnabled (l : Level) : bool :=
  (level_rank l <=? level_rank stdLevel)%nat.

(** The [log.Fields] of the entry [FilterRecords] writes. *)
Record Fields : Type := {
  user_agent : value;
  event_time : value;
  principal : value;
  user_name : string;
  event_source : value;
  event_name : value;
  account_id : value;
  event_id : value;
  s3_uri : string
}.

(** What the handler does to the outside, in order. *)
Inductive event : Type :=
| LogEntry (level : Level) (msg : string) (fields : option Fields)
| S3GetObject (bucket key : string)
| HttpPost (url body : string).

(** A Go [error]; [None] is [nil]. *)
Abbreviation error := (option string).

(** A computation either returns or panics; either way it has extended the
    list of events. *)
Inductive result (A : Type) : Type :=
| Ok (a : A)
| Panicked (msg : string).
Arguments Ok {A} a.
Arguments Panicked {A} msg.

Definition M (A : Type) : Type := list event -> result A * list event.

Definition ret {A} (a : A) : M A := fun tr => (Ok a, tr).

Definition bind {A B} (m : M A) (k : A -> M B) : M B :=
  fun tr => match m tr with
            | (Ok a, tr') => k a tr'
            | (Panicked msg, tr') => (Panicked msg, tr')
            end.

Definition panic {A} (msg : string) : M A := fun tr => (Panicked msg, tr).

Definition emit (e : event) : M unit := fun tr => (Ok tt, tr ++ [e]).

Declare Scope go_scope.
Delimit Scope go_scope with go.
Notation "x <- m ;; k" := (bind m (fun x => k))
  (at level 100, m at next level, right associativity) : go_scope.
Notation "m ;; k" := (bind m (fun _ => k))
  (at level 100, right associativity) : go_scope.

(** A call of the standard logger: an entry below the logger's level is
    dropped before it is built. *)
Definition log (l : Level) (msg : string) (fields : option Fields) : M unit :=
  if IsLevelEnabled l then emit (LogEntry l msg fields) else ret tt.

(** [v.(string)] in its one-result form: it panics when [v] holds no string. *)
Definition assertString (v : value) : M string :=
  match v with
  | VString s => ret s
  | _ => panic ("interface conversion: interface {} is " +:+ typeName v +:+ ", not string")
  end.

(** [xs[i]]: an index out of range panics. *)
Definition at_index (xs : list string) (i : nat) : M string :=
  match nth_error xs i with
  | Some x => ret x
  | None => panic "runtime error: index out of range"
  end.

(** The verdict on a record: [Suppress] when the loop body left through a
    [continue], [Notify] when it ran to its end. *)
Inductive verdict : Type := Suppress | Notify.

(** How a [switch] of the loop body ends: with [continue], or by leaving the
    [switch] (its [break], or the end of a case's body). *)
Inductive flow : Type := Continue | Leave.

(** The conditions the [case]s of the two [switch]es test on a string. *)
Inductive test : Type :=
| TitleHasPrefix (prefix : string)
| HasPrefixOf (prefix : string)
| HasSuffixOf (suffix : string)
| Equals (s : string)
| Matches (pattern : string).

(** *** The program *)

Section Program.

Context (L : Lib) (W : World).

Local Open Scope go_scope.

(** [unicode.ToTitle]: ASCII is handled before the tables are consulted. *)
Definition ToTitle (r : Z) : Z :=
  if r <=? 0x7F
  then (if (97 <=? r) && (r <=? 122) then r - 32 else r)
  else unicode_ToTitle L r.

(** [isSeparator] of package [strings]: what ends a word for [Title]. *)
Definition isSeparator (r : Z) : bool :=
  if r <=? 0x7F then
    if (48 <=? r) && (r <=? 57) then false
    else if (97 <=? r) && (r <=? 122) then false
    else if (65 <=? r) && (r <=? 90) then false
    else if r =? 95 then false
    else true
  else if unicode_IsLetter L r || unicode_IsDigit L r then false
  else unicode_IsSpace L r.

(** [strings.Title(s)]: [strings.Map] over the runes of [s] with a function
    that remembers the rune before ([prev], a space at the start) and maps to
    title case the runes that follow a separator.  [Map] drops a rune mapped
    to a negative value and writes every other one in its encoding. *)
Fixpoint Title_map (prev : Z) (rs : list Z) : string :=
  match rs with
  | [] => EmptyString
  | r :: rest =>
    let r' := if isSeparator prev then ToTitle r else r in
    (if r' <? 0 then EmptyString else EncodeRune r') +:+ Title_map r rest
  end.

Definition Title (s : string) : string := Title_map 32 (runes s).

(** [matchString(m, s)]: the error of [regexp.MatchString] is dropped. *)
Definition matchString (m s : string) : bool := fst (MatchString m s).

(** One operand under the verb [%s]. *)
Definition fmt_s (v : value) : string :=
  match v with
  | VString s => s
  | VNil => "%!s(<nil>)"
  | VBool true => "%!s(bool=true)"
  | VBool false => "%!s(bool=false)"
  | _ => fmt_operand L v
  end.

(** [fmt.Sprintf] for formats whose only verb is [%s], as all formats of
    [FilterRecords] are; an operand that is missing prints as [%!s(MISSING)]. *)
Fixpoint Sprintf (format : string) (a : list value) : string :=
  match format with
  | EmptyString => EmptyString
  | String "%" (String "s" rest) =>
    match a with
    | v :: a' => fmt_s v +:+ Sprintf rest a'
    | [] => "%!s(MISSING)" +:+ Sprintf rest []
    end
  | String c rest => String c (Sprintf rest a)
  end.

(** [os.Getenv]. *)
Definition Getenv (key : string) : string := default EmptyString (LookupEnv W key).

(** [getEnv(key, fallback)]. *)
Definition getEnv (key fallback : string) : string :=
  match LookupEnv W key with
  | Some value => if String.eqb value EmptyString then fallback else value
  | None => fallback
  end.

(** [SendSlackNotification(webhookUrl, slackBody)]. *)
Definition SendSlackNotification (webhookUrl slackBody : string) : M error :=
  match http_NewRequest L webhookUrl with
  | Some err => ret (Some err)
  | None =>
    emit (HttpPost webhookUrl slackBody) ;;
    match http_Do W webhookUrl slackBody with
    | inr err => ret (Some err)
    | inl buf =>
      if negb (String.eqb buf "ok")
      then ret (Some ("Non-ok response returned from Slack: " +:+ buf))
      else ret None
    end
  end.

(** The condition of a [case] on the string [x]. *)
Definition holds (t : test) (x : string) : bool :=
  match t with
  | TitleHasPrefix p => HasPrefix (Title x) p
  | HasPrefixOf p => HasPrefix x p
  | HasSuffixOf p => HasSuffix x p
  | Equals s => String.eqb x s
  | Matches m => matchString m x
  end.

(** A [switch] without a tag: the cases are tried from the top, the body of
    the first whose condition holds is run, and no later case is looked at. *)
Fixpoint switch (x : string) (cases : list (test * flow)) (default : flow) : flow :=
  match cases with
  | [] => default
  | (t, body) :: rest => if holds t x then body else switch x rest default
  end.

(** The body of [case en == "PutQueryDefinition"]. *)
Definition putQueryDefinition (record : object) : flow :=
  if eqString (index record "eventSource") "logs.amazonaws.com" then Continue else Leave.

(** The body of [case en == "PutObject"]. *)
Definition putObject (record : object) : flow :=
  match asMap (index record "requestParameters") with
  | (rps, true) =>
    match asString (index rps "key") with
    | (k, true) => if HasPrefix k "elb/AWSLogs" then Continue else Leave
    | (_, false) => Leave
    end
  | (_, false) => Leave
  end.

(** The body of [case en == "AssumeRole"]. *)
Definition assumeRole (record userIdentity : object) : flow :=
  if eqString (index record "userAgent") "Coral/Netty4" then
    let invokedBy := index userIdentity "invokedBy" in
    if eqString invokedBy "ecs-tasks.amazonaws.com"
       || eqString invokedBy "ec2.amazonaws.com"
       || eqString invokedBy "monitoring.rds.amazonaws.com"
       || eqString invokedBy "lambda.amazonaws.com"
    then Continue else Leave
  else Leave.

(** The cases of the [switch] on the event name, in the order of the source:
    first those whose body is [continue] and nothing else, *)
Definition plainCases : list (test * flow) :=
  [ (TitleHasPrefix "Get", Continue);
    (TitleHasPrefix "List", Continue);
    (TitleHasPrefix "View", Continue);
    (HasPrefixOf "Head", Continue);
    (HasPrefixOf "Describe", Continue);
    (HasPrefixOf "Test", Continue);
    (HasPrefixOf "Download", Continue);
    (HasPrefixOf "Report", Continue);
    (HasPrefixOf "Poll", Continue);
    (HasPrefixOf "Verify", Continue);
    (HasPrefixOf "Skip", Continue);
    (HasPrefixOf "Count", Continue);
    (HasPrefixOf "Detect", Continue);
    (HasPrefixOf "Lookup", Continue);
    (Equals "ConsoleLogin", Continue);
    (HasSuffixOf "VirtualMFADevice", Continue);
    (Equals "CheckMfa", Continue);
    (Equals "CheckDomainAvailability", Continue);
    (Equals "Decrypt", Continue);
    (Equals "SetTaskStatus", Continue);
    (Equals "BatchGetQueryExecution", Continue);
    (Equals "QueryObjects", Continue);
    (HasPrefixOf "StartQuery", Continue);
    (HasPrefixOf "StopQuery", Continue);
    (HasPrefixOf "CancelQuery", Continue);
    (HasPrefixOf "BatchGet", Continue);
    (HasPrefixOf "Search", Continue);
    (Equals "GenerateServiceLastAccessedDetails", Continue);
    (Equals "REST.GET.OBJECT_LOCK_CONFIGURATION", Continue);
    (Equals "AssumeRoleWithWebIdentity", Continue) ].

(** then the three whose body looks at the record. *)
Definition eventNameCases (record userIdentity : object) : list (test * flow) :=
  plainCases ++
  [ (Equals "PutQueryDefinition", putQueryDefinition record);
    (Equals "PutObject", putObject record);
    (Equals "AssumeRole", assumeRole record userIdentity) ].

(** The [switch] on the event name; it has no [default]. *)
Definition eventNameSwitch (record userIdentity : object) (en : string) : flow :=
  switch en (eventNameCases record userIdentity) Leave.

(** The cases of the [switch] on the user agent: each one is a [break]. *)
Definition userAgentCases : list (test * flow) :=
  [ (Equals "console.amazonaws.com", Leave);
    (Equals "signin.amazonaws.com", Leave);
    (Equals "Coral/Jakarta", Leave);
    (Equals "Coral/Netty4", Leave);
    (Equals "AWS CloudWatch Console", Leave);
    (HasPrefixOf "AWS Signin", Leave);
    (HasPrefixOf "S3Console/", Leave);
    (HasPrefixOf "[S3Console", Leave);
    (HasPrefixOf "Mozilla/", Leave);
    (Matches "console.*.amazonaws.com", Leave);
    (Matches "signin.*.amazonaws.com", Leave);
    (Matches "aws-internal*", Leave) ].

(** [if usa, ok := record["userAgent"]; ok { switch ua := usa.(string); ... }]:
    the [default] of the [switch] is [continue]. *)
Definition userAgentSwitch (record : object) : M flow :=
  match record !! "userAgent" with
  | Some usa =>
    ua <- assertString usa ;;
    ret (switch ua userAgentCases Continue)
  | None => ret Leave
  end.

(** The name the entry and the notification show for the actor. *)
Definition actorName (userIdentity : object) : M string :=
  let userName := Sprintf "%s" [index userIdentity "principalId"] in
  userName <- (if Contains userName ":" then at_index (Split userName ":") 1 else ret userName) ;;
  ret (if negb (isNil (index userIdentity "userName"))
       then Sprintf "%s" [index userIdentity "userName"]
       else userName).

(** The fields of the entry logged for a record. *)
Definition eventFields (evt : S3EventRecord) (record userIdentity : object) (userName : string) : Fields :=
  {| user_agent := index record "userAgent";
     event_time := index record "eventTime";
     principal := index userIdentity "principalId";
     user_name := userName;
     event_source := index record "eventSource";
     event_name := index record "eventName";
     account_id := index userIdentity "accountId";
     event_id := index record "eventID";
     s3_uri := Sprintf "s3://%s/%s" [VString (BucketName evt); VString (ObjectKey evt)] |}.

(** The format of the Slack message.  It is written here with ['] where the
    source has a double quote; [requote] puts the double quotes back. *)
Definition slackTemplate : string :=
"
{
  'channel': '%s',
  'text': 'Not Used',
  'blocks': [
    {
      'type': 'section',
      'text': {
        'type': 'mrkdwn',
        'text': '*%s* - %s'
      }
    },
    {
      'type': 'context',
      'elements': [
        {
          'type': 'mrkdwn',
          'text': '%s'
        },
        {
          'type': 'mrkdwn',
          'text': '%s'
        },
        {
          'type': 'mrkdwn',
          'text': '<https://console.aws.amazon.com/cloudtrail/home?region=%s#/events?EventId=%s|%s>'
        }
      ]
    }
  ]
}
".

Fixpoint requote (s : string) : string :=
  match s with
  | EmptyString => EmptyString
  | String c s' => String (if Ascii.eqb c "'" then "034"%char else c) (requote s')
  end.

(** Lines 187 to 256: the entry is logged and, when [SLACK_WEBHOOK] is set,
    the message is sent; a failed delivery is logged at debug level. *)
Definition notify (evt : S3EventRecord) (record userIdentity : object) : M unit :=
  userName <- actorName userIdentity ;;
  log InfoLevel "Event" (Some (eventFields evt record userIdentity userName)) ;;
  match LookupEnv W "SLACK_WEBHOOK" with
  | Some webhookUrl =>
    let slackBody :=
      Sprintf (requote slackTemplate)
        [ VString (Getenv "SLACK_CHANNEL");
          index record "eventName";
          index record "eventSource";
          VString (getEnv (Sprintf "SLACK_NAME_%s" [index userIdentity "accountId"])
                          (getEnv "SLACK_NAME" (Sprintf "%s" [index userIdentity "accountId"])));
          VString userName;
          index record "awsRegion";
          index record "eventID";
          index record "eventTime" ] in
    err <- SendSlackNotification webhookUrl slackBody ;;
    match err with
    | Some e => log DebugLevel slackBody None ;; log DebugLevel e None
    | None => ret tt
    end
  | None => ret tt
  end.

(** Lines 156 to 256: the check of the user agent and what follows it. *)
Definition userAgentStage (evt : S3EventRecord) (record userIdentity : object) : M verdict :=
  f <- userAgentSwitch record ;;
  match f with
  | Continue => ret Suppress
  | Leave => notify evt record userIdentity ;; ret Notify
  end.

(** The body of the loop of [FilterRecords], for one record. *)
Definition filterRecord (evt : S3EventRecord) (record : object) : M verdict :=
  let userIdentity := fst (asMap (index record "userIdentity")) in
  if eqString (index userIdentity "invokedBy") "AWS Internal" then ret Suppress
  else
    en <- assertString (index record "eventName") ;;
    match eventNameSwitch record userIdentity en with
    | Continue => ret Suppress
    | Leave => userAgentStage evt record userIdentity
    end.

(** [for _, record := range logFile.Records]: the verdicts, in file order. *)
Fixpoint filterRecords (evt : S3EventRecord) (records : list object) : M (list verdict) :=
  match records with
  | [] => ret []
  | record :: rest =>
    v <- filterRecord evt record ;;
    vs <- filterRecords evt rest ;;
    ret (v :: vs)
  end.

(** [FilterRecords(logFile, evt)]; it returns [nil] whenever it returns. *)
Definition FilterRecords (logFile : CloudTrailFile) (evt : S3EventRecord) : M error :=
  filterRecords evt (Records logFile) ;; ret None.

(** [fetchLogFromS3(s3Client, s3Bucket, s3Object)]. *)
Definition fetchLogFromS3 (s3Bucket s3Object : string) : M (option GetObjectOutput * error) :=
  if Contains s3Object "/CloudTrail-Digest/" || Contains s3Object "/Config/"
  then ret (None, None)
  else
    emit (S3GetObject s3Bucket s3Object) ;;
    match GetObject W s3Bucket s3Object with
    | inr (AwsError aerr) => ret (None, Some ("AWS Error: " +:+ aerr))
    | inr (OtherError err) => ret (None, Some ("Error getting S3 Object: " +:+ err))
    | inl obj => ret (Some obj, None)
    end.

(** [readLogFile(object)]. *)
Definition readLogFile (object : GetObjectOutput) : CloudTrailFile + string :=
  let blob :=
    match ContentType object with
    | Some "application/x-gzip" =>
      match gzip_NewReader L (Body object) with
      | Some err => inr ("extracting json.gz file: " +:+ err)
      | None =>
        match gzip_Read L (Body object) with
        | inr err => inr ("Error reading from logFileBlob: " +:+ err)
        | inl bytes => inl bytes
        end
      end
    | _ => inl (Body object)
    end in
  match blob with
  | inr err => inr err
  | inl bytes =>
    match json_Unmarshal L bytes with
    | inr err => inr ("unmarshalling s3 object to CloudTrailFile: " +:+ err)
    | inl logFile => inl logFile
    end
  end.

(** [Stream(evt)].  The model starts from an S3 client that exists, the one
    [World] stands for: the two lines that build it read the credentials and
    the region ([session.Must] panics when no session can be made) and are
    left out. *)
Definition Stream (evt : S3EventRecord) : M error :=
  let s3Bucket := BucketName evt in
  let s3Object := ObjectKey evt in
  log DebugLevel
    ("Reading " +:+ s3Object +:+ " from " +:+ s3Bucket +:+ " with client config of " +:+ clientConfig W)
    None ;;
  fetched <- fetchLogFromS3 s3Bucket s3Object ;;
  match fetched with
  | (_, Some err) => ret (Some (s3Object +:+ ": " +:+ err))
  | (None, None) => ret None
  | (Some obj, None) =>
    match readLogFile obj with
    | inr err => ret (Some (s3Object +:+ ": " +:+ err))
    | inl logFile =>
      err <- FilterRecords logFile evt ;;
      match err with
      | Some e => ret (Some (s3Object +:+ ": " +:+ e))
      | None => ret None
      end
    end
  end.

(** [S3Handler(ctx, s3Event)]. *)
Fixpoint streamAll (s3Records : list S3EventRecord) : M error :=
  match s3Records with
  | [] => ret None
  | s3Record :: rest =>
    err <- Stream s3Record ;;
    match err with
    | Some e => ret (Some e)
    | None => streamAll rest
    end
  end.

Definition S3Handler (s3Event : list S3EventRecord) : M error :=
  log InfoLevel ("S3 event: " +:+ fmt_S3Event L s3Event) None ;;
  streamAll s3Event.

End Program.

(** *** Sample inputs *)

(** Tables that know no letter, digit or space above ASCII, and a decoder
    that decodes nothing: enough to run the filter on ASCII records. *)
Definition plainLib : Lib :=
  {| unicode_ToTitle := fun r => r;
     unicode_IsLetter := fun _ => false;
     unicode_IsDigit := fun _ => false;
     unicode_IsSpace := fun _ => false;
     fmt_operand := fun _ => "?";
     fmt_S3Event := fun _ => "{}";
     gzip_NewReader := fun _ => None;
     gzip_Read := fun b => inl b;
     json_Unmarshal := fun _ => inr "unexpected end of JSON input";
     http_NewRequest := fun _ => None |}.

(** A world with no environment variable set and an empty bucket. *)
Definition quietWorld : World :=
  {| LookupEnv := fun _ => None;
     GetObject := fun _ _ => inr (AwsError "NoSuchKey");
     clientConfig := "{}";
     http_Do := fun _ _ => inl "ok" |}.

(** The same world with a webhook configured. *)
Definition slackWorld : World :=
  {| LookupEnv := fun k => if String.eqb k "SLACK_WEBHOOK" then Some "https://hooks.example/T0" else None;
     GetObject := fun _ _ => inr (AwsError "NoSuchKey");
     clientConfig := "{}";
     http_Do := fun _ _ => inl "ok" |}.

Definition sampleEvt : S3EventRecord :=
  {| AWSRegion := "eu-west-1";
     BucketName := "trail";
     ObjectKey := "AWSLogs/1/CloudTrail/eu-west-1/2020/01/01/a.json.gz" |}.

Definition digestEvt : S3EventRecord :=
  {| AWSRegion := "eu-west-1";
     BucketName := "trail";
     ObjectKey := "AWSLogs/1/CloudTrail-Digest/eu-west-1/2020/01/01/d.json.gz" |}.

Definition mkRecord (fields : list (string * value)) : object := list_to_map fields.

Definition bobIdentity : object :=
  mkRecord [("principalId", VString "AROAEXAMPLE:session-bob"); ("accountId", VString "123456789012")].

Definition aliceIdentity : object :=
  mkRecord [("principalId", VString "AROAEXAMPLE:session-bob"); ("userName", VString "alice")].

Definition internalIdentity : object :=
  mkRecord [("principalId", VString "AROAEXAMPLE:session-bob"); ("invokedBy", VString "AWS Internal")].

Definition ec2Identity : object :=
  mkRecord [("principalId", VString "AROAEXAMPLE:i-0abc"); ("invokedBy", VString "ec2.amazonaws.com")].

(** A console action: nothing suppresses it. *)
Definition consoleRecord : object :=
  mkRecord [("eventName", VString "CreateUser"); ("eventSource", VString "iam.amazonaws.com");
            ("eventID", VString "e-1"); ("eventTime", VString "2020-01-01T00:00:00Z");
            ("awsRegion", VString "eu-west-1");
            ("userAgent", VString "console.amazonaws.com"); ("userIdentity", VObject bobIdentity)].

(** A record made by the platform itself, with no event name at all. *)
Definition internalRecord : object :=
  mkRecord [("userIdentity", VObject internalIdentity)].

(** A record with no event name. *)
Definition namelessRecord : object :=
  mkRecord [("eventSource", VString "iam.amazonaws.com"); ("userIdentity", VObject bobIdentity)].

Definition readRecord : object :=
  mkRecord [("eventName", VString "getFoo"); ("userIdentity", VObject bobIdentity)].

Definition describeRecord : object :=
  mkRecord [("eventName", VString "describeFoo"); ("userIdentity", VObject bobIdentity)].

Definition curlRecord : object :=
  mkRecord [("eventName", VString "CreateUser"); ("userAgent", VString "curl/7.64");
            ("userIdentity", VObject bobIdentity)].

Definition assumeRoleRecord : object :=
  mkRecord [("eventName", VString "AssumeRole"); ("userAgent", VString "Coral/Netty4");
            ("userIdentity", VObject ec2Identity)].

Definition putQueryRecord : object :=
  mkRecord [("eventName", VString "PutQueryDefinition"); ("eventSource", VString "logs.amazonaws.com");
            ("userIdentity", VObject bobIdentity)].

(** A user agent in which the text of the console pattern stands with a line
    feed where the pattern has its last dot. *)
Definition newlineAgent : string := "console-amazonaws" +:+ String "010"%char "com".

Definition newlineRecord : object :=
  mkRecord [("eventName", VString "CreateUser"); ("userAgent", VString newlineAgent);
            ("userIdentity", VObject bobIdentity)].

(** A user agent that merely mentions the internal tooling. *)
Definition internalToolRecord : object :=
  mkRecord [("eventName", VString "CreateUser"); ("userAgent", VString "Boto3/1.9 aws-interna/3");
            ("userIdentity", VObject bobIdentity)].

(** *** Vocabulary of the statements *)

(** [s] holds no colon. *)
Definition colon_free (s : string) : Prop := ~ In ":"%char (list_ascii_of_string s).

(** The structured entries among the events, in order. *)
Fixpoint entries (tr : list event) : list Fields :=
  match tr with
  | [] => []
  | LogEntry _ _ (Some f) :: rest => f :: entries rest
  | _ :: rest => entries rest
  end.

(** How many of the verdicts are [Notify]. *)
Fixpoint notified (verdicts : list verdict) : nat :=
  match verdicts with
  | [] => 0%nat
  | Notify :: rest => S (notified rest)
  | Suppress :: rest => notified rest
  end.

(** The first letter of [s] in lower case. *)
Definition lowerFirst (s : string) : string :=
  match s with
  | EmptyString => EmptyString
  | String c s' =>
    let b := byte_val c in
    String (if (65 <=? b) && (b <=? 90) then byte_of (b + 32) else c) s'
  end.

(** The prefixes the event-name [switch] tests as they are written. *)
Definition exactCasePrefixes : list string :=
  [ "Head"; "Describe"; "Test"; "Download"; "Report"; "Poll"; "Verify"; "Skip";
    "Count"; "Detect"; "Lookup"; "StartQuery"; "StopQuery"; "CancelQuery";
    "BatchGet"; "Search" ].

(** The prefixes it tests on the title-cased name. *)
Definition titleCasePrefixes : list string := [ "Get"; "List"; "View" ].

(** The entries of the user-agent allow-list: the conditions of the cases of
    the second [switch]. *)
Definition allowList : list test := map fst userAgentCases.

(** The service principals [assumeRole] trusts. *)
Definition trustedInvokers : list string :=
  [ "ecs-tasks.amazonaws.com"; "ec2.amazonaws.com";
    "monitoring.rds.amazonaws.com"; "lambda.amazonaws.com" ].

(** The expression for a run of literal runes followed by [e]. *)
Definition lits (l : list Z) (e : regex) : regex :=
  fold_right (fun r e' => Concat (Literal r) e') e l.

(** No rune of [w] is a newline. *)
Definition no_newline (w : list Z) : Prop := Forall (fun r => r <> 10) w.

(** *** Vocabulary of the further properties *)

(** A computation that only adds events, and whose result and added events do
    not depend on the events before it. *)
Definition framed {A : Type} (m : M A) : Prop :=
  forall tr, m tr = (fst (m []), tr ++ snd (m [])).

(** The requests to the bucket among the events, in order. *)
Fixpoint fetches (tr : list event) : list (string * string) :=
  match tr with
  | [] => []
  | S3GetObject bucket key :: rest => (bucket, key) :: fetches rest
  | _ :: rest => fetches rest
  end.

(** The messages posted to a webhook among the events, in order. *)
Fixpoint posts (tr : list event) : list (string * string) :=
  match tr with
  | [] => []
  | HttpPost url body :: rest => (url, body) :: posts rest
  | _ :: rest => posts rest
  end.

(** A record that holds a user agent which is JSON [null]. *)
Definition nullAgentRecord : object :=
  mkRecord [("eventName", VString "CreateUser"); ("userAgent", VNil);
            ("userIdentity", VObject bobIdentity)].

(** The label of the account in the Slack message (lines 243 to 245). *)
Definition accountLabel (L : Lib) (W : World) (userIdentity : object) : string :=
  getEnv W (Sprintf L "SLACK_NAME_%s" [index userIdentity "accountId"])
           (getEnv W "SLACK_NAME" (Sprintf L "%s" [index userIdentity "accountId"])).

(** The Slack message for a record (lines 208 to 249). *)
Definition slackBody (L : Lib) (W : World) (record userIdentity : object) (userName : string) : string :=
  Sprintf L (requote slackTemplate)
    [ VString (Getenv W "SLACK_CHANNEL");
      index record "eventName";
      index record "eventSource";
      VString (accountLabel L W userIdentity);
      VString userName;
      index record "awsRegion";
      index record "eventID";
      index record "eventTime" ].

(** What is sent for a notified record: one request, when the webhook is set
    and a request can be made for its URL. *)
Definition delivery (L : Lib) (W : World) (body : string) : list event :=
  match LookupEnv W "SLACK_WEBHOOK" with
  | Some url =>
    match http_NewRequest L url with
    | None => [HttpPost url body]
    | Some _ => []
    end
  | None => []
  end.

(** A world that names one account and has a default name for the others. *)
Definition labelWorld : World :=
  {| LookupEnv := fun k =>
       if String.eqb k "SLACK_NAME_123456789012" then Some "production"
       else if String.eqb k "SLACK_NAME_000000000000" then Some ""
       else if String.eqb k "SLACK_NAME" then Some "aws"
       else None;
     GetObject := fun _ _ => inr (AwsError "NoSuchKey");
     clientConfig := "{}";
     http_Do := fun _ _ => inl "ok" |}.

(** [s] holds only bytes below 128. *)
Definition ascii_only (s : string) : Prop :=
  Forall (fun c => byte_val c < 128) (list_ascii_of_string s).

(** The event names the event-name [switch] suppresses by name. *)
Definition suppressedNames : list string :=
  [ "ConsoleLogin"; "CheckMfa"; "CheckDomainAvailability"; "Decrypt"; "SetTaskStatus";
    "BatchGetQueryExecution"; "QueryObjects"; "GenerateServiceLastAccessedDetails";
    "REST.GET.OBJECT_LOCK_CONFIGURATION"; "AssumeRoleWithWebIdentity" ].

(** An upload of load-balancer logs, and an upload of something else. *)
Definition elbUploadRecord : object :=
  mkRecord [("eventName", VString "PutObject");
            ("requestParameters", VObject (mkRecord [("key", VString "elb/AWSLogs/123/a.log")]));
            ("userIdentity", VObject bobIdentity)].

Definition mfaRecord : object :=
  mkRecord [("eventName", VString "CreateVirtualMFADevice");
            ("userAgent", VString "console.amazonaws.com");
            ("userIdentity", VObject bobIdentity)].


(** A role assumed through the internal SDK on behalf of a service that is
    not one of the trusted four. *)
Definition glueIdentity : object :=
  mkRecord [("principalId", VString "AROAEXAMPLE:glue"); ("invokedBy", VString "glue.amazonaws.com")].

Definition glueAssumeRoleRecord : object :=
  mkRecord [("eventName", VString "AssumeRole"); ("userAgent", VString "Coral/Netty4");
            ("userIdentity", VObject glueIdentity)].

(** The key holds one of the two markers of objects that are not fetched. *)
Definition has_marker (key : string) : Prop :=
  (exists a b, key = a +:+ "/CloudTrail-Digest/" +:+ b) \/
  (exists a b, key = a +:+ "/Config/" +:+ b).

(** A world whose bucket holds one plain object, and a library whose JSON
    decoder reads it as a file of two records. *)
Definition fileWorld : World :=
  {| LookupEnv := fun _ => None;
     GetObject := fun _ key =>
       if String.eqb key "AWSLogs/1/CloudTrail/eu-west-1/2020/01/01/a.json.gz"
       then inl {| ContentType := Some "application/json"; Body := "{...}" |}
       else inr (AwsError "NoSuchKey");
     clientConfig := "{}";
     http_Do := fun _ _ => inl "ok" |}.

Definition fileLib : Lib :=
  {| unicode_ToTitle := fun r => r;
     unicode_IsLetter := fun _ => false;
     unicode_IsDigit := fun _ => false;
     unicode_IsSpace := fun _ => false;
     fmt_operand := fun _ => "?";
     fmt_S3Event := fun _ => "{}";
     gzip_NewReader := fun _ => Some "gzip: invalid header";
     gzip_Read := fun b => inl b;
     json_Unmarshal := fun b =>
       if String.eqb b "{...}" then inl {| Records := [readRecord; consoleRecord] |}
       else inr "unexpected end of JSON input";
     http_NewRequest := fun _ => None |}.

Definition missingEvt : S3EventRecord :=
  {| AWSRegion := "eu-west-1"; BucketName := "trail"; ObjectKey := "AWSLogs/1/CloudTrail/missing.json" |}.

(** One step of a computation, for the proofs. *)
Ltac run := unfold bind, ret, emit, panic, log; simpl.

(** ** Part II: properties *)

(** *** Strings *)

#[local] Arguments String.append !_ _ / : simpl nomatch.

Lemma append_nil_r (s : string) : s +:+ EmptyString = s.
Proof. induction s as [|c s IH]; simpl; [reflexivity | now rewrite IH]. Qed.

Lemma append_assoc (a b c : string) : (a +:+ b) +:+ c = a +:+ (b +:+ c).
Proof. induction a as [|x a IH]; simpl; [reflexivity | now rewrite IH]. Qed.

Lemma HasPrefix_app (p r : string) : HasPrefix (p +:+ r) p = true.
Proof.
  induction p as [|c p IH]; simpl; [reflexivity|].
  now rewrite Ascii.eqb_refl.
Qed.

Lemma HasPrefix_spec (s p : string) :
  HasPrefix s p = true <-> exists r, s = p +:+ r.
Proof.
  split.
  - revert s. induction p as [|c p IH]; intros s H.
    + now exists s.
    + destruct s as [|d s]; simpl in H; [discriminate|].
      destruct (Ascii.eqb d c) eqn:E; [|discriminate].
      apply Ascii.eqb_eq in E. subst d.
      destruct (IH _ H) as [r ->]. now exists r.
  - intros [r ->]. apply HasPrefix_app.
Qed.

Lemma Contains_here (s sub : string) :
  HasPrefix s sub = true -> Contains s sub = true.
Proof. intros H. destruct s; simpl; now rewrite H. Qed.

Lemma Contains_later (c : ascii) (s sub : string) :
  Contains s sub = true -> Contains (String c s) sub = true.
Proof. intros H. simpl. rewrite H. now destruct (HasPrefix _ _). Qed.

Lemma Contains_spec (s sub : string) :
  Contains s sub = true <-> exists a b, s = a +:+ sub +:+ b.
Proof.
  split.
  - induction s as [|c s IH]; simpl.
    + destruct (HasPrefix EmptyString sub) eqn:E; [|discriminate].
      intros _. apply HasPrefix_spec in E. destruct E as [r E].
      exists EmptyString, r. exact E.
    + destruct (HasPrefix (String c s) sub) eqn:E.
      * intros _. apply HasPrefix_spec in E. destruct E as [r E].
        exists EmptyString, r. exact E.
      * intros H. destruct (IH H) as (a & b & ->).
        now exists (String c a), b.
  - intros (a & b & ->). induction a as [|c a IH].
    + apply Contains_here. exact (HasPrefix_app sub b).
    + apply Contains_later, IH.
Qed.

Lemma colon_free_nil : colon_free EmptyString.
Proof. intros []. Qed.

Lemma colon_free_cons (c : ascii) (s : string) :
  colon_free (String c s) <-> c <> ":"%char /\ colon_free s.
Proof.
  unfold colon_free. simpl. split.
  - intros H. split; intros K; apply H; [left; congruence | right; exact K].
  - intros [H1 H2] [K|K]; [congruence | tauto].
Qed.

Lemma Contains_colon_false (s : string) :
  Contains s ":" = false <-> colon_free s.
Proof.
  induction s as [|c s IH].
  - simpl. split; [intros _; apply colon_free_nil | reflexivity].
  - rewrite colon_free_cons, <- IH. simpl.
    destruct (Ascii.eqb_spec c ":"%char) as [->|N]; simpl.
    + split; [discriminate | intros [K _]; congruence].
    + tauto.
Qed.

(** A piece with no colon in it is read to its end, or up to the colon that
    follows it. *)
Lemma Split_scan_last (cur a : string) :
  colon_free a -> Split_scan ":" 0 cur a = [cur +:+ a].
Proof.
  revert cur. induction a as [|c a IH]; intros cur F; simpl.
  - now rewrite append_nil_r.
  - apply colon_free_cons in F. destruct F as [N F].
    destruct (Ascii.eqb_spec c ":"%char) as [->|_]; [congruence|].
    rewrite (IH _ F), append_assoc. reflexivity.
Qed.

Lemma Split_scan_cut (cur a t : string) :
  colon_free a ->
  Split_scan ":" 0 cur (a +:+ ":" +:+ t) = (cur +:+ a) :: Split_scan ":" 0 EmptyString t.
Proof.
  revert cur. induction a as [|c a IH]; intros cur F; simpl.
  - now rewrite append_nil_r.
  - apply colon_free_cons in F. destruct F as [N F].
    destruct (Ascii.eqb_spec c ":"%char) as [->|_]; [congruence|].
    rewrite (IH _ F), append_assoc. reflexivity.
Qed.

Lemma Split_scan_nonempty (sep : string) (k : nat) (cur s : string) :
  exists x xs, Split_scan sep k cur s = x :: xs.
Proof.
  revert k cur. induction s as [|c s IH]; intros k cur; simpl.
  - eauto.
  - destruct k; [|apply IH].
    destruct (HasPrefix (String c s) sep); [eauto | apply IH].
Qed.

(** A string with a colon splits into two pieces at least. *)
Lemma Split_colon_second (cur s : string) :
  Contains s ":" = true ->
  exists x y ys, Split_scan ":" 0 cur s = x :: y :: ys.
Proof.
  revert cur. induction s as [|c s IH]; intros cur H; simpl in *; [discriminate|].
  destruct (Ascii.eqb_spec c ":"%char) as [->|N]; simpl in *.
  - destruct (Split_scan_nonempty ":" 0 EmptyString s) as (y & ys & ->). eauto.
  - apply IH, H.
Qed.

(** *** Runes *)

Lemma first_some (s0 : Z) (sz : nat) (lo hi : Z) :
  first s0 = Some (sz, lo, hi) -> (sz = 2 \/ sz = 3 \/ sz = 4)%nat /\ 128 <= lo.
Proof.
  unfold first.
  repeat match goal with
         | |- context [if ?b then _ else _] => destruct b
         end; intros H; inversion H; subst; split; auto; lia.
Qed.

(** A byte below 128 is never read as part of the rune before it. *)
Lemma decode_app (x : ascii) (a : string) (c : ascii) (s : string) :
  byte_val c < 128 ->
  DecodeRuneInString (String x (a +:+ String c s)) = DecodeRuneInString (String x a).
Proof.
  intros Hc. unfold DecodeRuneInString.
  destruct (byte_val x <? 128); [reflexivity|].
  destruct (first (byte_val x)) as [[[sz lo] hi]|] eqn:F; [|reflexivity].
  apply first_some in F. destruct F as [Hsz Hlo].
  assert (C1 : (byte_val c <? lo) = true) by (apply Z.ltb_lt; lia).
  assert (C2 : continuation (byte_val c) = false).
  { unfold continuation. apply andb_false_iff. left. apply Z.leb_gt. lia. }
  destruct Hsz as [->|[->| ->]];
    destruct a as [|c1 [|c2 [|c3 a]]]; simpl;
    rewrite ?C1, ?C2; simpl;
    repeat match goal with
           | |- context [if ?b then _ else _] => destruct b
           end; reflexivity.
Qed.

Lemma decode_width (x : ascii) (a : string) :
  (1 <= snd (DecodeRuneInString (String x a)) <= S (String.length a))%nat.
Proof.
  unfold DecodeRuneInString.
  destruct (byte_val x <? 128); [simpl; lia|].
  destruct (first (byte_val x)) as [[[sz lo] hi]|] eqn:F; [|simpl; lia].
  apply first_some in F. destruct F as [Hsz _].
  destruct Hsz as [->|[->| ->]];
    destruct a as [|c1 [|c2 [|c3 a]]]; simpl;
    repeat match goal with
           | |- context [if ?b then _ else _] => destruct b
           end; simpl; lia.
Qed.

Lemma runes_from_app (k : nat) (a : string) (c : ascii) (s : string) :
  byte_val c < 128 -> (k <= String.length a)%nat ->
  runes_from k (a +:+ String c s) = runes_from k a ++ runes (String c s).
Proof.
  intros Hc. revert k. induction a as [|x a IH]; intros k Hk.
  - simpl in Hk. replace k with 0%nat by lia. reflexivity.
  - change (String x a +:+ String c s) with (String x (a +:+ String c s)).
    destruct k as [|k].
    + cbn [runes_from]. rewrite decode_app by exact Hc.
      pose proof (decode_width x a) as Hw.
      destruct (DecodeRuneInString (String x a)) as [r w]. simpl in Hw.
      rewrite IH by lia. reflexivity.
    + cbn [runes_from]. apply IH. simpl in Hk. lia.
Qed.

(** The runes of a string around an ASCII byte are those of its two parts. *)
Lemma runes_app_ascii (a : string) (c : ascii) (s : string) :
  byte_val c < 128 ->
  runes (a +:+ String c s) = runes a ++ runes (String c s).
Proof. intros Hc. apply runes_from_app; [exact Hc | lia]. Qed.

(** *** Regular expressions *)

Lemma nullable_spec (e : regex) : nullable e = true <-> matches e [].
Proof.
  split.
  - induction e; simpl; intros H; try discriminate.
    + constructor.
    + apply andb_true_iff in H. destruct H as [H1 H2].
      change (@nil Z) with (@nil Z ++ []). constructor; auto.
    + apply orb_true_iff in H. destruct H as [H|H]; [apply m_alt_l | apply m_alt_r]; auto.
    + constructor.
  - intros H. remember (@nil Z) as w eqn:Hw.
    induction H; simpl; try discriminate; try reflexivity.
    + apply app_eq_nil in Hw. destruct Hw as [-> ->].
      rewrite IHmatches1, IHmatches2; auto.
    + rewrite IHmatches; auto.
    + rewrite IHmatches; auto. apply orb_true_r.
Qed.

Lemma deriv_sound (c : Z) (e : regex) (w : list Z) :
  matches (deriv c e) w -> matches e (c :: w).
Proof.
  revert w. induction e; simpl; intros w H.
  - inversion H.
  - inversion H.
  - destruct (Z.eqb_spec c r) as [->|N]; inversion H; subst. constructor.
  - destruct (Z.eqb_spec c 10) as [->|N]; inversion H; subst. now constructor.
  - destruct (nullable e1) eqn:N1.
    + inversion H as [| | | | a b u Hl | a b u Hr | |]; subst.
      * inversion Hl as [| | |a b u' v Hu Hv| | | |]; subst.
        change (c :: u' ++ v) with ((c :: u') ++ v). constructor; auto.
      * apply nullable_spec in N1.
        change (c :: w) with ([] ++ c :: w). constructor; auto.
    + inversion H as [| | |a b u' v Hu Hv| | | |]; subst.
      change (c :: u' ++ v) with ((c :: u') ++ v). constructor; auto.
  - inversion H; subst; [apply m_alt_l | apply m_alt_r]; auto.
  - inversion H as [| | |a b u' v Hu Hv| | | |]; subst.
    change (c :: u' ++ v) with ((c :: u') ++ v). constructor; auto.
Qed.

Lemma deriv_complete (e : regex) (s : list Z) :
  matches e s -> forall c w, s = c :: w -> matches (deriv c e) w.
Proof.
  induction 1; intros c w E; simpl.
  - discriminate.
  - inversion E; subst. rewrite Z.eqb_refl. constructor.
  - inversion E; subst. destruct (Z.eqb_spec c 10); [contradiction | constructor].
  - destruct u as [|x u]; simpl in E.
    + subst v. assert (N : nullable a = true) by now apply nullable_spec.
      rewrite N. apply m_alt_r. now apply IHmatches2.
    + inversion E; subst.
      assert (K : matches (Concat (deriv c a) b) (u ++ v)) by (constructor; auto).
      destruct (nullable a); [apply m_alt_l|]; exact K.
  - apply m_alt_l. now apply IHmatches.
  - apply m_alt_r. now apply IHmatches.
  - discriminate.
  - destruct u as [|x u]; simpl in E.
    + now apply IHmatches2.
    + inversion E; subst. constructor; auto.
Qed.

Lemma deriv_spec (c : Z) (e : regex) (w : list Z) :
  matches (deriv c e) w <-> matches e (c :: w).
Proof.
  split; [apply deriv_sound | intros H; now apply (deriv_complete _ _ H)].
Qed.

Lemma matchHere_spec (e : regex) (input : list Z) :
  matchHere e input = true <-> exists u v, input = u ++ v /\ matches e u.
Proof.
  revert e. induction input as [|c rest IH]; intros e; simpl.
  - destruct (nullable e) eqn:N.
    + split; [intros _ | reflexivity]. exists [], []. split; [reflexivity|].
      now apply nullable_spec.
    + split; [discriminate|]. intros (u & v & E & H).
      symmetry in E. apply app_eq_nil in E. destruct E as [-> _].
      apply nullable_spec in H. congruence.
  - destruct (nullable e) eqn:N.
    + split; [intros _ | reflexivity]. exists [], (c :: rest). split; [reflexivity|].
      now apply nullable_spec.
    + rewrite IH. split.
      * intros (u & v & -> & H). exists (c :: u), v. split; [reflexivity|].
        now apply deriv_spec.
      * intros (u & v & E & H). destruct u as [|x u].
        -- apply nullable_spec in H. congruence.
        -- simpl in E. inversion E; subst. exists u, v. split; [reflexivity|].
           now apply deriv_spec.
Qed.

(** [search] finds exactly the inputs with a match somewhere inside. *)
Lemma search_spec (e : regex) (input : list Z) :
  search e input = true <->
  exists pre u post, input = pre ++ u ++ post /\ matches e u.
Proof.
  induction input as [|c rest IH]; cbn [search].
  - destruct (matchHere e []) eqn:M.
    + split; [intros _ | reflexivity]. apply matchHere_spec in M.
      destruct M as (u & v & E & H). exists [], u, v. auto.
    + split; [discriminate|]. intros (pre & u & post & E & H).
      symmetry in E. apply app_eq_nil in E. destruct E as [-> E].
      assert (matchHere e [] = true); [|congruence].
      apply matchHere_spec. exists u, post. auto.
  - destruct (matchHere e (c :: rest)) eqn:M.
    + split; [intros _ | reflexivity]. apply matchHere_spec in M.
      destruct M as (u & v & E & H). exists [], u, v. auto.
    + rewrite IH. split.
      * intros (pre & u & post & -> & H). exists (c :: pre), u, post. auto.
      * intros (pre & u & post & E & H). destruct pre as [|x pre].
        -- assert (matchHere e (c :: rest) = true); [|congruence].
           apply matchHere_spec. exists u, post. auto.
        -- simpl in E. inversion E; subst. exists pre, u, post. auto.
Qed.

Lemma matches_empty (w : list Z) : matches EmptyMatch w <-> w = [].
Proof. split; [inversion 1; reflexivity | intros ->; constructor]. Qed.

Lemma matches_concat (a b : regex) (w : list Z) :
  matches (Concat a b) w <-> exists u v, w = u ++ v /\ matches a u /\ matches b v.
Proof.
  split.
  - inversion 1; subst; eauto.
  - intros (u & v & -> & Hu & Hv). now constructor.
Qed.

Lemma matches_lits (l : list Z) (e : regex) (w : list Z) :
  matches (lits l e) w <-> exists v, w = l ++ v /\ matches e v.
Proof.
  revert w. induction l as [|r l IH]; intros w; simpl.
  - split; [eauto | now intros (v & -> & H)].
  - rewrite matches_concat. split.
    + intros (u & v & -> & Hu & Hv). inversion Hu; subst.
      apply IH in Hv. destruct Hv as (v' & -> & Hv'). eauto.
    + intros (v & -> & Hv). exists [r], (l ++ v). split; [reflexivity|].
      split; [constructor | apply IH; eauto].
Qed.

Lemma matches_any (w : list Z) :
  matches AnyCharNotNL w <-> exists r, w = [r] /\ r <> 10.
Proof.
  split; [inversion 1; subst; eauto | intros (r & -> & N); now constructor].
Qed.

Lemma matches_star_any (w : list Z) :
  matches (Star AnyCharNotNL) w <-> no_newline w.
Proof.
  unfold no_newline. split.
  - intros H. remember (Star AnyCharNotNL) as e eqn:E.
    induction H; try discriminate; [constructor|].
    inversion E; subst. apply Forall_app. split; [|auto].
    inversion H; subst. constructor; [assumption | constructor].
  - induction 1 as [|r w N _ IH]; [constructor|].
    change (r :: w) with ([r] ++ w). constructor; [now constructor | exact IH].
Qed.

(** What a pattern of the shape [a.*.b.c] matches (with [a], [b], [c] runs of
    literal runes). *)
Lemma matches_dotted (a b c : list Z) (w : list Z) :
  matches (lits a (Concat (Star AnyCharNotNL)
            (Concat AnyCharNotNL (lits b (Concat AnyCharNotNL (lits c EmptyMatch)))))) w <->
  exists mid c1 c2,
    w = a ++ mid ++ c1 :: b ++ c2 :: c /\ no_newline mid /\ c1 <> 10 /\ c2 <> 10.
Proof.
  rewrite matches_lits. split.
  - intros (v & -> & H).
    apply matches_concat in H. destruct H as (mid & v1 & -> & Hmid & H).
    apply matches_star_any in Hmid.
    apply matches_concat in H. destruct H as (d1 & v2 & -> & Hd1 & H).
    apply matches_any in Hd1. destruct Hd1 as (c1 & -> & N1).
    apply matches_lits in H. destruct H as (v3 & -> & H).
    apply matches_concat in H. destruct H as (d2 & v4 & -> & Hd2 & H).
    apply matches_any in Hd2. destruct Hd2 as (c2 & -> & N2).
    apply matches_lits in H. destruct H as (v5 & -> & H).
    apply matches_empty in H. subst v5.
    exists mid, c1, c2. rewrite app_nil_r. auto.
  - intros (mid & c1 & c2 & -> & Hmid & N1 & N2).
    eexists. split; [reflexivity|].
    apply matches_concat. exists mid, (c1 :: b ++ c2 :: c). split; [reflexivity|].
    split; [now apply matches_star_any|].
    apply matches_concat. exists [c1], (b ++ c2 :: c). split; [reflexivity|].
    split; [apply matches_any; eauto|].
    apply matches_lits. eexists. split; [reflexivity|].
    apply matches_concat. exists [c2], c. split; [reflexivity|].
    split; [apply matches_any; eauto|].
    apply matches_lits. exists []. split; [now rewrite app_nil_r | constructor].
Qed.

(** What a pattern of the shape [ab*] matches, somewhere in the input: [a]
    is enough. *)
Lemma search_starred (a : list Z) (r : Z) (input : list Z) :
  search (lits a (Concat (Star (Literal r)) EmptyMatch)) input = true <->
  exists pre post, input = pre ++ a ++ post.
Proof.
  rewrite search_spec. split.
  - intros (pre & u & post & -> & H).
    apply matches_lits in H. destruct H as (v & -> & _).
    exists pre, (v ++ post). now rewrite <- app_assoc.
  - intros (pre & post & ->). exists pre, a, post. split; [reflexivity|].
    apply matches_lits. exists []. split; [now rewrite app_nil_r|].
    change (@nil Z) with (@nil Z ++ []). constructor; constructor.
Qed.

(** *** Values and events *)

Lemma eqString_spec (v : value) (s : string) : eqString v s = true <-> v = VString s.
Proof.
  destruct v; simpl; try (split; [discriminate | intros H; discriminate H]).
  rewrite String.eqb_eq. split; [intros -> | intros H; inversion H]; reflexivity.
Qed.

Lemma eqString_other (v : value) (s : string) : eqString v s = false <-> v <> VString s.
Proof.
  rewrite <- eqString_spec. destruct (eqString v s); split; congruence.
Qed.

Lemma entries_app (a b : list event) : entries (a ++ b) = entries a ++ entries b.
Proof.
  induction a as [|e a IH]; [reflexivity|].
  destruct e as [l m [f|]| |]; simpl; rewrite IH; reflexivity.
Qed.

Lemma Sprintf_s (L : Lib) (v : value) : Sprintf L "%s" [v] = fmt_s L v.
Proof. simpl. apply append_nil_r. Qed.

Lemma s3_uri_spec (L : Lib) (bucket key : string) :
  Sprintf L "s3://%s/%s" [VString bucket; VString key] = "s3://" +:+ bucket +:+ "/" +:+ key.
Proof. simpl. now rewrite append_nil_r. Qed.

(** *** The two switches *)

Lemma bind_Ok {A B : Type} (m : M A) (k : A -> M B) (tr : list event) (a : A) (tr' : list event) :
  m tr = (Ok a, tr') -> bind m k tr = k a tr'.
Proof. intros H. unfold bind. now rewrite H. Qed.

Lemma bind_Panicked {A B : Type} (m : M A) (k : A -> M B) (tr : list event) (msg : string)
    (tr' : list event) :
  m tr = (Panicked msg, tr') -> bind m k tr = (Panicked msg, tr').
Proof. intros H. unfold bind. now rewrite H. Qed.

(** A case that holds among cases that all [continue] makes the switch
    [continue], whatever comes after them. *)
Lemma switch_Continue (L : Lib) (x : string) (cases rest : list (test * flow)) (d : flow) :
  Forall (fun c => snd c = Continue) cases ->
  (exists t, In t (map fst cases) /\ holds L t x = true) ->
  switch L x (cases ++ rest) d = Continue.
Proof.
  induction 1 as [|[t b] cases Hb _ IH]; intros (t' & Hin & Hh); simpl in *.
  - contradiction.
  - subst b. destruct (holds L t x) eqn:E; [reflexivity|].
    apply IH. exists t'. destruct Hin as [->|Hin]; [congruence | auto].
Qed.

(** Cases none of which holds are passed over. *)
Lemma switch_skip (L : Lib) (x : string) (cases rest : list (test * flow)) (d : flow) :
  forallb (fun c => negb (holds L (fst c) x)) cases = true ->
  switch L x (cases ++ rest) d = switch L x rest d.
Proof.
  induction cases as [|[t b] cases IH]; simpl; intros H; [reflexivity|].
  apply andb_true_iff in H. destruct H as [H1 H2].
  destruct (holds L t x); [discriminate | auto].
Qed.

(** A switch whose cases all [break] and whose default is [continue]. *)
Lemma switch_allow (L : Lib) (x : string) (cases : list (test * flow)) :
  Forall (fun c => snd c = Leave) cases ->
  switch L x cases Continue =
  if existsb (fun t => holds L t x) (map fst cases) then Leave else Continue.
Proof.
  induction 1 as [|[t b] cases Hb _ IH]; simpl in *; [reflexivity|].
  subst b. destruct (holds L t x); [reflexivity | exact IH].
Qed.

Lemma plainCases_Continue : Forall (fun c => snd c = Continue) plainCases.
Proof. repeat constructor. Qed.

Lemma userAgentCases_Leave : Forall (fun c => snd c = Leave) userAgentCases.
Proof. repeat constructor. Qed.

(** *** The actor's name and the notification *)

Lemma actorName_ok (L : Lib) (userIdentity : object) (tr : list event) :
  exists name, actorName L userIdentity tr = (Ok name, tr).
Proof.
  unfold actorName. rewrite !Sprintf_s.
  destruct (Contains (fmt_s L (index userIdentity "principalId")) ":") eqn:C.
  - destruct (Split_colon_second EmptyString _ C) as (x & y & ys & E).
    unfold Split. rewrite E. run. eauto.
  - run. eauto.
Qed.

Lemma SendSlackNotification_events (L : Lib) (W : World) (url body : string) (tr : list event) :
  exists err sent,
    SendSlackNotification L W url body tr = (Ok err, tr ++ sent) /\ entries sent = [].
Proof.
  unfold SendSlackNotification.
  destruct (http_NewRequest L url).
  - exists (Some s), []. run. now rewrite app_nil_r.
  - run. destruct (http_Do W url body) as [buf|err].
    + destruct (negb (String.eqb buf "ok")); eexists; exists [HttpPost url body]; run; eauto.
    + eexists; exists [HttpPost url body]; run; eauto.
Qed.

(** [notify] writes the entry first, and nothing it does after that is an
    entry. *)
Lemma notify_spec (L : Lib) (W : World) (evt : S3EventRecord) (record userIdentity : object)
    (tr : list event) :
  exists name sent,
    actorName L userIdentity tr = (Ok name, tr) /\
    notify L W evt record userIdentity tr =
      (Ok tt, tr ++ LogEntry InfoLevel "Event" (Some (eventFields L evt record userIdentity name)) :: sent) /\
    entries sent = [].
Proof.
  destruct (actorName_ok L userIdentity tr) as [name Hn].
  exists name. unfold notify.
  rewrite (bind_Ok _ _ _ _ _ Hn).
  rewrite (bind_Ok _ _ _ tt (tr ++ [LogEntry InfoLevel "Event"
             (Some (eventFields L evt record userIdentity name))])) by reflexivity.
  destruct (LookupEnv W "SLACK_WEBHOOK") as [url|].
  - match goal with
    | |- context [SendSlackNotification L W url ?b] =>
      destruct (SendSlackNotification_events L W url b
                  (tr ++ [LogEntry InfoLevel "Event" (Some (eventFields L evt record userIdentity name))]))
        as (err & sent & Hs & He)
    end.
    exists sent. split; [exact Hn|]. split; [|exact He].
    rewrite (bind_Ok _ _ _ _ _ Hs). rewrite <- app_assoc. simpl.
    destruct err; reflexivity.
  - exists []. auto.
Qed.

(** *** One record *)

Lemma index_Some (m : object) (k : string) (v : value) :
  m !! k = Some v -> index m k = v.
Proof. intros H. unfold index. now rewrite H. Qed.

(** The check of the user agent ends in one of three ways. *)
Lemma userAgentStage_spec (L : Lib) (W : World) (evt : S3EventRecord)
    (record userIdentity : object) (tr : list event) :
  (exists name sent,
     actorName L userIdentity tr = (Ok name, tr) /\
     userAgentStage L W evt record userIdentity tr =
       (Ok Notify, tr ++ LogEntry InfoLevel "Event"
                            (Some (eventFields L evt record userIdentity name)) :: sent) /\
     entries sent = [] /\
     (record !! "userAgent" = None \/
      exists ua, record !! "userAgent" = Some (VString ua) /\
                 existsb (fun t => holds L t ua) (map fst userAgentCases) = true)) \/
  (userAgentStage L W evt record userIdentity tr = (Ok Suppress, tr) /\
   exists ua, record !! "userAgent" = Some (VString ua) /\
              existsb (fun t => holds L t ua) (map fst userAgentCases) = false) \/
  (exists msg, userAgentStage L W evt record userIdentity tr = (Panicked msg, tr) /\
   exists v, record !! "userAgent" = Some v /\ snd (asString v) = false).
Proof.
  destruct (notify_spec L W evt record userIdentity tr) as (name & sent & Hn & Hs & He).
  assert (N : bind (notify L W evt record userIdentity) (fun _ => ret Notify) tr =
              (Ok Notify, tr ++ LogEntry InfoLevel "Event"
                 (Some (eventFields L evt record userIdentity name)) :: sent)).
  { now rewrite (bind_Ok _ _ _ _ _ Hs). }
  unfold userAgentStage, userAgentSwitch.
  destruct (record !! "userAgent") as [v|] eqn:E.
  - destruct v as [ | b | f | ua | l | m ];
      try (right; right; eexists; split; [reflexivity | eexists; split; [reflexivity | reflexivity]]).
    rewrite (bind_Ok _ _ _ (switch L ua userAgentCases Continue) tr) by reflexivity.
    rewrite (switch_allow L ua _ userAgentCases_Leave).
    destruct (existsb (fun t => holds L t ua) (map fst userAgentCases)) eqn:X.
    + left. exists name, sent. repeat split; eauto.
    + right; left. split; [reflexivity | eauto].
  - left. exists name, sent. rewrite (bind_Ok _ _ _ Leave tr) by reflexivity.
    repeat split; auto.
Qed.

(** Processing a record ends in one of three ways: the entry is written and
    the verdict is [Notify]; nothing is done and the verdict is [Suppress]; a
    type assertion panics before anything is done. *)
Lemma filterRecord_outcome (L : Lib) (W : World) (evt : S3EventRecord) (record : object)
    (tr : list event) :
  (exists name sent,
     actorName L (fst (asMap (index record "userIdentity"))) tr = (Ok name, tr) /\
     filterRecord L W evt record tr =
       (Ok Notify, tr ++ LogEntry InfoLevel "Event"
          (Some (eventFields L evt record (fst (asMap (index record "userIdentity"))) name)) :: sent) /\
     entries sent = []) \/
  filterRecord L W evt record tr = (Ok Suppress, tr) \/
  (exists msg, filterRecord L W evt record tr = (Panicked msg, tr)).
Proof.
  unfold filterRecord.
  destruct (eqString _ "AWS Internal"); [right; left; reflexivity|].
  destruct (index record "eventName") as [ | b | f | en | l | m ];
    try (right; right; eexists; reflexivity).
  rewrite (bind_Ok _ _ _ en tr) by reflexivity.
  destruct (eventNameSwitch L record _ en); [right; left; reflexivity|].
  destruct (userAgentStage_spec L W evt record (fst (asMap (index record "userIdentity"))) tr)
    as [(name & sent & Hn & Hs & He & _) | [[Hs _] | (msg & Hs & _)]].
  - left. exists name, sent. auto.
  - right; left. exact Hs.
  - right; right. eauto.
Qed.

(** *** The event-name switch on particular names *)

Lemma title_prefix_holds (L : Lib) (p tail : string) :
  In p titleCasePrefixes ->
  holds L (TitleHasPrefix p) (p +:+ tail) = true /\
  holds L (TitleHasPrefix p) (lowerFirst p +:+ tail) = true.
Proof.
  intros H. simpl in H. decompose [or] H; subst; try contradiction;
    split; vm_compute; reflexivity.
Qed.

Lemma exact_prefix_holds (L : Lib) (p tail : string) :
  In p exactCasePrefixes ->
  holds L (HasPrefixOf p) (p +:+ tail) = true /\
  holds L (HasPrefixOf p) (lowerFirst p +:+ tail) = false.
Proof.
  intros H. simpl in H. decompose [or] H; subst; try contradiction;
    split; vm_compute; reflexivity.
Qed.

Lemma title_prefix_listed (p : string) :
  In p titleCasePrefixes -> In (TitleHasPrefix p, Continue) plainCases.
Proof.
  intros H. simpl in H. decompose [or] H; subst; try contradiction;
    unfold plainCases; repeat (first [left; reflexivity | right]).
Qed.

Lemma exact_prefix_listed (p : string) :
  In p exactCasePrefixes -> In (HasPrefixOf p, Continue) plainCases.
Proof.
  intros H. simpl in H. decompose [or] H; subst; try contradiction;
    unfold plainCases; repeat (first [left; reflexivity | right]).
Qed.

(** When a plain case holds, the record is suppressed. *)
Lemma plain_case_suppresses (L : Lib) (W : World) (evt : S3EventRecord) (record : object)
    (tr : list event) (en : string) (t : test) :
  index record "eventName" = VString en ->
  In (t, Continue) plainCases -> holds L t en = true ->
  filterRecord L W evt record tr = (Ok Suppress, tr).
Proof.
  intros Hen Hin Hh. unfold filterRecord.
  destruct (eqString _ "AWS Internal"); [reflexivity|].
  rewrite Hen. rewrite (bind_Ok _ _ _ en tr) by reflexivity.
  unfold eventNameSwitch, eventNameCases.
  rewrite (switch_Continue L en plainCases _ Leave plainCases_Continue); [reflexivity|].
  exists t. split; [|exact Hh]. now apply (in_map fst) in Hin.
Qed.

Lemma eventNameSwitch_PutQueryDefinition (L : Lib) (record userIdentity : object) :
  eventNameSwitch L record userIdentity "PutQueryDefinition" = putQueryDefinition record.
Proof.
  unfold eventNameSwitch, eventNameCases.
  rewrite switch_skip by (vm_compute; reflexivity). reflexivity.
Qed.

Lemma eventNameSwitch_AssumeRole (L : Lib) (record userIdentity : object) :
  eventNameSwitch L record userIdentity "AssumeRole" = assumeRole record userIdentity.
Proof.
  unfold eventNameSwitch, eventNameCases.
  rewrite switch_skip by (vm_compute; reflexivity). reflexivity.
Qed.

(** Past the internal-invoker check, the event-name switch decides between
    [Suppress] and the check of the user agent. *)
Lemma filterRecord_after_invoker (L : Lib) (W : World) (evt : S3EventRecord) (record : object)
    (tr : list event) (en : string) :
  eqString (index (fst (asMap (index record "userIdentity"))) "invokedBy") "AWS Internal" = false ->
  index record "eventName" = VString en ->
  filterRecord L W evt record tr =
    match eventNameSwitch L record (fst (asMap (index record "userIdentity"))) en with
    | Continue => (Ok Suppress, tr)
    | Leave => userAgentStage L W evt record (fst (asMap (index record "userIdentity"))) tr
    end.
Proof.
  intros HA Hen. unfold filterRecord. rewrite HA, Hen.
  rewrite (bind_Ok _ _ _ en tr) by reflexivity.
  now destruct (eventNameSwitch L record _ en).
Qed.

Lemma assumeRole_spec (record userIdentity : object) :
  assumeRole record userIdentity = Continue <->
  index record "userAgent" = VString "Coral/Netty4" /\
  exists s, In s trustedInvokers /\ index userIdentity "invokedBy" = VString s.
Proof.
  unfold assumeRole, trustedInvokers.
  destruct (eqString (index record "userAgent") "Coral/Netty4") eqn:U.
  - apply eqString_spec in U.
    destruct (eqString (index userIdentity "invokedBy") "ecs-tasks.amazonaws.com") eqn:I1;
      [apply eqString_spec in I1; split; [intros _; split; [exact U|]; eexists; split; [|exact I1]; simpl; tauto | reflexivity]|].
    destruct (eqString (index userIdentity "invokedBy") "ec2.amazonaws.com") eqn:I2;
      [apply eqString_spec in I2; split; [intros _; split; [exact U|]; eexists; split; [|exact I2]; simpl; tauto | reflexivity]|].
    destruct (eqString (index userIdentity "invokedBy") "monitoring.rds.amazonaws.com") eqn:I3;
      [apply eqString_spec in I3; split; [intros _; split; [exact U|]; eexists; split; [|exact I3]; simpl; tauto | reflexivity]|].
    destruct (eqString (index userIdentity "invokedBy") "lambda.amazonaws.com") eqn:I4;
      [apply eqString_spec in I4; split; [intros _; split; [exact U|]; eexists; split; [|exact I4]; simpl; tauto | reflexivity]|].
    simpl. split; [discriminate|].
    intros (_ & s & Hin & Hs). apply eqString_other in I1, I2, I3, I4.
    simpl in Hin. decompose [or] Hin; subst; contradiction.
  - split; [discriminate|]. intros (H & _). apply eqString_spec in H. congruence.
Qed.

(** *** The patterns of the allow-list *)

Lemma search_dotted (a b c : list Z) (input : list Z) :
  search (lits a (Concat (Star AnyCharNotNL)
            (Concat AnyCharNotNL (lits b (Concat AnyCharNotNL (lits c EmptyMatch)))))) input = true <->
  exists pre mid c1 c2 post,
    input = pre ++ a ++ mid ++ c1 :: b ++ c2 :: c ++ post /\
    no_newline mid /\ c1 <> 10 /\ c2 <> 10.
Proof.
  rewrite search_spec. split.
  - intros (pre & u & post & -> & H). apply matches_dotted in H.
    destruct H as (mid & c1 & c2 & -> & Hm & N1 & N2).
    exists pre, mid, c1, c2, post. split; [|auto].
    repeat (rewrite <- app_assoc; simpl). reflexivity.
  - intros (pre & mid & c1 & c2 & post & -> & Hm & N1 & N2).
    exists pre, (a ++ mid ++ c1 :: b ++ c2 :: c), post. split.
    + repeat (rewrite <- app_assoc; simpl). reflexivity.
    + apply matches_dotted. exists mid, c1, c2. auto.
Qed.

Lemma runes_around_aws_interna (a b : string) :
  runes (a +:+ "aws-interna" +:+ b) = runes a ++ runes "aws-interna" ++ runes b.
Proof.
  change (a +:+ "aws-interna" +:+ b) with (a +:+ String "a" ("ws-interna" +:+ b)).
  rewrite runes_app_ascii by (vm_compute; reflexivity).
  f_equal.
Qed.

(** A console action in a world with a webhook: the entry is written, then the
    message is posted. *)
Example console_action_is_posted :
  exists f body,
    filterRecord plainLib slackWorld sampleEvt consoleRecord [] =
      (Ok Notify, [LogEntry InfoLevel "Event" (Some f); HttpPost "https://hooks.example/T0" body]) /\
    user_name f = "session-bob" /\
    HasPrefix body (String "010"%char "{") = true.
Proof. do 2 eexists. repeat split; vm_compute; reflexivity. Qed.

(** *** The claims *)

(** C1 (as amended).  The structured entry, with its nine fields (user agent,
    event time, principal, actor name, event source, event name, account id,
    event id and the [s3://bucket/key] locator), is written for a record
    exactly when the record's verdict is [Notify]; it is the first thing the
    record adds to the events and the only entry it adds.  A record whose
    verdict is [Suppress] adds nothing, and neither does one on which the
    filter panics.  Over a file the filter runs through, the number of
    entries written is therefore the number of [Notify] verdicts. *)
Theorem C1_entry_written_only_on_Notify (L : Lib) (W : World) (evt : S3EventRecord)
    (record : object) (tr : list event) :
  let userIdentity := fst (asMap (index record "userIdentity")) in
  match filterRecord L W evt record tr with
  | (Ok Notify, tr') =>
    exists name sent,
      actorName L userIdentity tr = (Ok name, tr) /\
      tr' = tr ++ LogEntry InfoLevel "Event"
                    (Some {| user_agent := index record "userAgent";
                             event_time := index record "eventTime";
                             principal := index userIdentity "principalId";
                             user_name := name;
                             event_source := index record "eventSource";
                             event_name := index record "eventName";
                             account_id := index userIdentity "accountId";
                             event_id := index record "eventID";
                             s3_uri := "s3://" +:+ BucketName evt +:+ "/" +:+ ObjectKey evt |})
                  :: sent /\
      entries sent = []
  | (Ok Suppress, tr') => tr' = tr
  | (Panicked _, tr') => tr' = tr
  end /\
  forall records verdicts tr',
    filterRecords L W evt records tr = (Ok verdicts, tr') ->
    length verdicts = length records /\
    length (entries tr') =
      (length (entries tr) + notified verdicts)%nat.
Proof.
  intros userIdentity. split.
  - destruct (filterRecord_outcome L W evt record tr)
      as [(name & sent & Hn & Hs & He) | [Hs | (msg & Hs)]]; rewrite Hs; [|reflexivity..].
    exists name, sent. split; [exact Hn|]. split; [|exact He].
    unfold eventFields. now rewrite s3_uri_spec.
  - clear record userIdentity. intros records. revert tr.
    induction records as [|record rest IH]; intros tr verdicts tr' H.
    + inversion H; subst. simpl. split; [reflexivity | lia].
    + cbn [filterRecords] in H.
      destruct (filterRecord_outcome L W evt record tr)
        as [(name & sent & _ & Hs & He) | [Hs | (msg & Hs)]].
      * rewrite (bind_Ok _ _ _ _ _ Hs) in H. unfold bind at 1 in H.
        destruct (filterRecords L W evt rest _) as [[vs|msg] tr''] eqn:R; [|discriminate].
        inversion H; subst. destruct (IH _ _ _ R) as [H1 H2]. simpl.
        split; [now rewrite H1|]. rewrite H2, entries_app. simpl.
        rewrite He, !length_app. simpl. lia.
      * rewrite (bind_Ok _ _ _ _ _ Hs) in H. unfold bind at 1 in H.
        destruct (filterRecords L W evt rest _) as [[vs|msg] tr''] eqn:R; [|discriminate].
        inversion H; subst. destruct (IH _ _ _ R) as [H1 H2]. simpl.
        split; [now rewrite H1 | exact H2].
      * rewrite (bind_Panicked _ _ _ _ _ Hs) in H. discriminate.
Qed.

(** C1, the claim as written fails: a read event is processed and suppressed,
    and no entry is written for it. *)
Lemma C1_suppressed_record_writes_no_entry :
  filterRecord plainLib quietWorld sampleEvt readRecord [] = (Ok Suppress, []) /\
  entries (snd (filterRecords plainLib quietWorld sampleEvt [readRecord; consoleRecord] [])) =
    [ eventFields plainLib sampleEvt consoleRecord bobIdentity "session-bob" ].
Proof. split; vm_compute; reflexivity. Qed.

(** The amended C1 at a file of two records, one suppressed and one notified. *)
Lemma C1_witness :
  length (entries (snd (filterRecords plainLib quietWorld sampleEvt [readRecord; consoleRecord] []))) = 1%nat.
Proof.
  destruct (C1_entry_written_only_on_Notify plainLib quietWorld sampleEvt readRecord []) as [_ H].
  destruct (filterRecords plainLib quietWorld sampleEvt [readRecord; consoleRecord] [])
    as [[vs|msg] tr'] eqn:E; [|vm_compute in E; discriminate].
  destruct (H _ _ _ E) as [_ H2]. simpl snd. rewrite H2.
  vm_compute in E. inversion E; subst. reflexivity.
Defined.

(** C2 (what the code does).  [record["eventName"].(string)] is a type
    assertion in its one-result form: on a record that the internal-invoker
    check lets through and whose [eventName] is absent or holds no string, it
    panics, and the records after it in the file are never looked at. *)
Theorem C2_eventName_assertion_panics (L : Lib) (W : World) (evt : S3EventRecord)
    (record : object) (rest : list object) (tr : list event) :
  eqString (index (fst (asMap (index record "userIdentity"))) "invokedBy") "AWS Internal" = false ->
  snd (asString (index record "eventName")) = false ->
  exists msg,
    filterRecord L W evt record tr = (Panicked msg, tr) /\
    filterRecords L W evt (record :: rest) tr = (Panicked msg, tr) /\
    FilterRecords L W {| Records := record :: rest |} evt tr = (Panicked msg, tr).
Proof.
  intros HA HN.
  assert (P : exists msg, filterRecord L W evt record tr = (Panicked msg, tr)).
  { unfold filterRecord. rewrite HA.
    destruct (index record "eventName"); try discriminate HN; eexists; reflexivity. }
  destruct P as [msg P]. exists msg. split; [exact P|].
  assert (R : filterRecords L W evt (record :: rest) tr = (Panicked msg, tr)).
  { cbn [filterRecords]. now rewrite (bind_Panicked _ _ _ _ _ P). }
  split; [exact R|].
  unfold FilterRecords. cbn [Records]. now rewrite (bind_Panicked _ _ _ _ _ R).
Qed.

(** C2 at a record with no event name, followed by a console action: the
    file is abandoned with a panic, and the console action is never logged. *)
Lemma C2_witness :
  FilterRecords plainLib quietWorld {| Records := [namelessRecord; consoleRecord] |} sampleEvt [] =
    (Panicked "interface conversion: interface {} is nil, not string", []).
Proof.
  destruct (C2_eventName_assertion_panics plainLib quietWorld sampleEvt namelessRecord
              [consoleRecord] []) as (msg & H1 & _ & H3);
    [vm_compute; reflexivity | vm_compute; reflexivity |].
  rewrite H3. vm_compute in H1. inversion H1; subst. reflexivity.
Defined.

(** C3.  A record whose [userIdentity.invokedBy] is ["AWS Internal"] is
    suppressed whatever else it holds: the check comes first, so nothing is
    logged, nothing is sent, and a missing or ill-typed [eventName] or
    [userAgent] is never looked at. *)
Theorem C3_internal_invoker_suppressed (L : Lib) (W : World) (evt : S3EventRecord)
    (record userIdentity : object) (tr : list event) :
  record !! "userIdentity" = Some (VObject userIdentity) ->
  userIdentity !! "invokedBy" = Some (VString "AWS Internal") ->
  filterRecord L W evt record tr = (Ok Suppress, tr).
Proof.
  intros HU HI. unfold filterRecord.
  rewrite (index_Some _ _ _ HU). cbn [asMap fst].
  rewrite (index_Some _ _ _ HI). reflexivity.
Qed.

(** C3 at a record that has no event name at all. *)
Lemma C3_witness :
  internalRecord !! "eventName" = None /\
  filterRecord plainLib quietWorld sampleEvt internalRecord [] = (Ok Suppress, []).
Proof.
  split; [vm_compute; reflexivity|].
  apply (C3_internal_invoker_suppressed plainLib quietWorld sampleEvt internalRecord internalIdentity []);
    vm_compute; reflexivity.
Defined.

(** C4 (as amended).  The actor's name is computed without a panic.  It is
    the string form of [userName] when that is present and not null.
    Otherwise it is the string form [p] of [principalId] when [p] has no
    colon, and when [p] has one it is the piece of [p] between its first colon
    and the next one (or the end of [p], when there is no other). *)
Theorem C4_actor_name (L : Lib) (userIdentity : object) (tr : list event) :
  let p := fmt_s L (index userIdentity "principalId") in
  let u := index userIdentity "userName" in
  exists name,
    actorName L userIdentity tr = (Ok name, tr) /\
    (u <> VNil -> name = fmt_s L u) /\
    (u = VNil -> colon_free p -> name = p) /\
    (u = VNil ->
     forall a b rest,
       p = a +:+ ":" +:+ b +:+ rest -> colon_free a -> colon_free b ->
       rest = EmptyString \/ (exists r, rest = ":" +:+ r) ->
       name = b).
Proof.
  intros p u. unfold actorName. rewrite !Sprintf_s. fold p u.
  destruct (Contains p ":") eqn:C.
  - destruct (Split_colon_second EmptyString _ C) as (x & y & ys & E).
    unfold Split. rewrite E. cbn [at_index nth_error].
    rewrite (bind_Ok _ _ _ y tr) by reflexivity. unfold ret.
    eexists. split; [reflexivity|]. split; [|split].
    + intros N. destruct u; [congruence | reflexivity..].
    + intros _ F. apply Contains_colon_false in F. congruence.
    + intros -> a b rest Hp Fa Fb Hrest. cbn [isNil negb].
      rewrite Hp in E. rewrite (Split_scan_cut _ a _ Fa) in E.
      destruct Hrest as [->|[r ->]].
      * rewrite append_nil_r, (Split_scan_last _ b Fb) in E. now inversion E.
      * rewrite (Split_scan_cut _ b _ Fb) in E. now inversion E.
  - rewrite (bind_Ok _ _ _ p tr) by reflexivity. unfold ret.
    eexists. split; [reflexivity|]. split; [|split].
    + intros N. destruct u; [congruence | reflexivity..].
    + intros -> _. reflexivity.
    + intros -> a b rest Hp Fa _ _. exfalso.
      assert (K : Contains p ":" = true); [|congruence].
      apply Contains_spec. exists a, (b +:+ rest). exact Hp.
Qed.

(** C4, the claim as written fails: with two colons in [principalId] the name
    stops at the second one, while the substring after the first colon goes
    on to the end. *)
Lemma C4_name_stops_at_second_colon :
  actorName plainLib (mkRecord [("principalId", VString "AROAEXAMPLE:session:bob")]) [] =
    (Ok "session", []) /\
  "AROAEXAMPLE:session:bob" = "AROAEXAMPLE" +:+ ":" +:+ "session:bob" /\
  String.eqb "session" "session:bob" = false.
Proof. repeat split; vm_compute; reflexivity. Qed.

(** The amended C4 at the two identities of the specification: a session
    name after the colon, and a user name that overrides it. *)
Lemma C4_witness :
  actorName plainLib bobIdentity [] = (Ok "session-bob", []) /\
  actorName plainLib aliceIdentity [] = (Ok "alice", []).
Proof.
  split.
  - destruct (C4_actor_name plainLib bobIdentity []) as (name & E & _ & _ & H).
    rewrite E. f_equal. f_equal.
    apply (H eq_refl "AROAEXAMPLE" "session-bob" EmptyString).
    + vm_compute; reflexivity.
    + vm_compute. intros K. decompose [or] K; discriminate || assumption.
    + vm_compute. intros K. decompose [or] K; discriminate || assumption.
    + left; reflexivity.
  - destruct (C4_actor_name plainLib aliceIdentity []) as (name & E & H & _).
    rewrite E. f_equal. f_equal. apply H. vm_compute. discriminate.
Defined.

(** C5.  Among the prefix cases of the event-name switch, the three for
    [Get], [List] and [View] test the title-cased name, so a name matches
    them whether its first letter is upper or lower case; the sixteen others
    test the name as it is, so they match it with its first letter in upper
    case and not with that letter in lower case.  No other case title-cases
    the name.  A record whose name starts with one of the nineteen prefixes (for
    the three, in either case of the first letter) is suppressed. *)
Theorem C5_title_case_for_Get_List_View_only (L : Lib) (record userIdentity : object) :
  (forall p tail, In p titleCasePrefixes ->
     In (TitleHasPrefix p, Continue) (eventNameCases record userIdentity) /\
     holds L (TitleHasPrefix p) (p +:+ tail) = true /\
     holds L (TitleHasPrefix p) (lowerFirst p +:+ tail) = true) /\
  (forall p tail, In p exactCasePrefixes ->
     In (HasPrefixOf p, Continue) (eventNameCases record userIdentity) /\
     holds L (HasPrefixOf p) (p +:+ tail) = true /\
     holds L (HasPrefixOf p) (lowerFirst p +:+ tail) = false) /\
  (forall t body, In (t, body) (eventNameCases record userIdentity) ->
     match t with TitleHasPrefix p => In p titleCasePrefixes | _ => True end) /\
  (forall W evt tr en p tail,
     index record "eventName" = VString en ->
     In p titleCasePrefixes /\ (en = p +:+ tail \/ en = lowerFirst p +:+ tail) \/
     In p exactCasePrefixes /\ en = p +:+ tail ->
     filterRecord L W evt record tr = (Ok Suppress, tr)) /\
  filterRecord plainLib quietWorld sampleEvt readRecord [] = (Ok Suppress, []) /\
  fst (filterRecord plainLib quietWorld sampleEvt describeRecord []) = Ok Notify.
Proof.
  split; [|split; [|split; [|split; [|split]]]].
  - intros p tail H. split; [|now apply title_prefix_holds].
    unfold eventNameCases. apply in_or_app. left. now apply title_prefix_listed.
  - intros p tail H. split; [|now apply exact_prefix_holds].
    unfold eventNameCases. apply in_or_app. left. now apply exact_prefix_listed.
  - intros t body H. unfold eventNameCases, plainCases, titleCasePrefixes in *.
    simpl in H. decompose [or] H; clear H;
      match goal with
      | E : (_, _) = (_, _) |- _ => inversion E; subst; simpl; tauto
      | F : False |- _ => destruct F
      end.
  - intros W evt tr en p tail Hen [[Hp [-> | ->]] | [Hp ->]].
    + apply (plain_case_suppresses L W evt record tr _ (TitleHasPrefix p) Hen).
      * now apply title_prefix_listed.
      * now apply title_prefix_holds.
    + apply (plain_case_suppresses L W evt record tr _ (TitleHasPrefix p) Hen).
      * now apply title_prefix_listed.
      * now apply title_prefix_holds.
    + apply (plain_case_suppresses L W evt record tr _ (HasPrefixOf p) Hen).
      * now apply exact_prefix_listed.
      * now apply exact_prefix_holds.
  - vm_compute; reflexivity.
  - vm_compute; reflexivity.
Qed.

(** C5 at the names [getFoo] and [describeFoo]. *)
Lemma C5_witness :
  holds plainLib (TitleHasPrefix "Get") "getFoo" = true /\
  holds plainLib (HasPrefixOf "Describe") "describeFoo" = false /\
  filterRecord plainLib quietWorld sampleEvt readRecord [] = (Ok Suppress, []).
Proof.
  destruct (C5_title_case_for_Get_List_View_only plainLib readRecord bobIdentity)
    as (H1 & H2 & _ & H4 & _).
  split; [|split].
  - apply (H1 "Get" "Foo"). simpl; tauto.
  - apply (H2 "Describe" "Foo"). simpl; tauto.
  - apply (H4 quietWorld sampleEvt [] "getFoo" "Get" "Foo").
    + vm_compute; reflexivity.
    + left. split; [simpl; tauto | right; vm_compute; reflexivity].
Defined.

(** C6.  For a record named [PutQueryDefinition], the event-name switch ends
    in [continue], and the record is suppressed, when [eventSource] is
    ["logs.amazonaws.com"]; for every other [eventSource] the switch is left
    and the record (if the internal-invoker check let it through) goes on to
    the check of the user agent. *)
Theorem C6_PutQueryDefinition (L : Lib) (W : World) (evt : S3EventRecord) (record : object)
    (tr : list event) :
  index record "eventName" = VString "PutQueryDefinition" ->
  let userIdentity := fst (asMap (index record "userIdentity")) in
  (index record "eventSource" = VString "logs.amazonaws.com" ->
     eventNameSwitch L record userIdentity "PutQueryDefinition" = Continue /\
     filterRecord L W evt record tr = (Ok Suppress, tr)) /\
  (index record "eventSource" <> VString "logs.amazonaws.com" ->
     eventNameSwitch L record userIdentity "PutQueryDefinition" = Leave /\
     (eqString (index userIdentity "invokedBy") "AWS Internal" = false ->
      filterRecord L W evt record tr = userAgentStage L W evt record userIdentity tr)).
Proof.
  intros Hen userIdentity. rewrite eventNameSwitch_PutQueryDefinition.
  unfold putQueryDefinition. split.
  - intros Hs. apply eqString_spec in Hs. rewrite Hs. split; [reflexivity|].
    destruct (eqString (index userIdentity "invokedBy") "AWS Internal") eqn:HA.
    + unfold filterRecord. fold userIdentity. now rewrite HA.
    + rewrite (filterRecord_after_invoker L W evt record tr _ HA Hen).
      fold userIdentity. rewrite eventNameSwitch_PutQueryDefinition.
      unfold putQueryDefinition. now rewrite Hs.
  - intros Hs. apply eqString_other in Hs. rewrite Hs. split; [reflexivity|].
    intros HA. rewrite (filterRecord_after_invoker L W evt record tr _ HA Hen).
    fold userIdentity. rewrite eventNameSwitch_PutQueryDefinition.
    unfold putQueryDefinition. now rewrite Hs.
Qed.

(** C6 at a query definition of CloudWatch Logs. *)
Lemma C6_witness :
  filterRecord plainLib quietWorld sampleEvt putQueryRecord [] = (Ok Suppress, []).
Proof.
  apply (C6_PutQueryDefinition plainLib quietWorld sampleEvt putQueryRecord []);
    vm_compute; reflexivity.
Defined.

(** C7.  For a record named [AssumeRole], the event-name switch ends in
    [continue] exactly when [userAgent] is ["Coral/Netty4"] and
    [userIdentity.invokedBy] is one of the four trusted service principals;
    then the record is suppressed.  When either condition fails the switch is
    left and the record (if the internal-invoker check let it through) goes
    on to the check of the user agent. *)
Theorem C7_AssumeRole (L : Lib) (W : World) (evt : S3EventRecord) (record : object)
    (tr : list event) :
  index record "eventName" = VString "AssumeRole" ->
  let userIdentity := fst (asMap (index record "userIdentity")) in
  let trusted :=
    index record "userAgent" = VString "Coral/Netty4" /\
    exists s, In s trustedInvokers /\ index userIdentity "invokedBy" = VString s in
  (eventNameSwitch L record userIdentity "AssumeRole" = Continue <-> trusted) /\
  (trusted -> filterRecord L W evt record tr = (Ok Suppress, tr)) /\
  (~ trusted ->
     eventNameSwitch L record userIdentity "AssumeRole" = Leave /\
     (eqString (index userIdentity "invokedBy") "AWS Internal" = false ->
      filterRecord L W evt record tr = userAgentStage L W evt record userIdentity tr)).
Proof.
  intros Hen userIdentity trusted.
  assert (S : eventNameSwitch L record userIdentity "AssumeRole" = Continue <-> trusted).
  { rewrite eventNameSwitch_AssumeRole. apply assumeRole_spec. }
  split; [exact S|]. split.
  - intros T. apply S in T.
    destruct (eqString (index userIdentity "invokedBy") "AWS Internal") eqn:HA.
    + unfold filterRecord. fold userIdentity. now rewrite HA.
    + rewrite (filterRecord_after_invoker L W evt record tr _ HA Hen).
      fold userIdentity. now rewrite T.
  - intros T.
    assert (E : eventNameSwitch L record userIdentity "AssumeRole" = Leave).
    { destruct (eventNameSwitch L record userIdentity "AssumeRole"); [|reflexivity].
      exfalso. apply T, S. reflexivity. }
    split; [exact E|]. intros HA.
    rewrite (filterRecord_after_invoker L W evt record tr _ HA Hen).
    fold userIdentity. now rewrite E.
Qed.

(** C7 at a role assumed by EC2 through the internal SDK. *)
Lemma C7_witness :
  filterRecord plainLib quietWorld sampleEvt assumeRoleRecord [] = (Ok Suppress, []).
Proof.
  apply (C7_AssumeRole plainLib quietWorld sampleEvt assumeRoleRecord []).
  - vm_compute; reflexivity.
  - split; [vm_compute; reflexivity|].
    exists "ec2.amazonaws.com". split; [simpl; tauto | vm_compute; reflexivity].
Defined.

(** C8.  For a record that reaches the check of the user agent (the
    internal-invoker check let it through, its event name is a string and the
    event-name switch was left): when [userAgent] is absent the verdict is
    [Notify]; when it is a string that no entry of the allow-list matches, the
    verdict is [Suppress] and nothing is logged; when it is a string that an
    entry matches, the verdict is [Notify].  No entry matches ["curl/7.64"]. *)
Theorem C8_user_agent_allow_list (L : Lib) (W : World) (evt : S3EventRecord) (record : object)
    (en : string) (tr : list event) :
  let userIdentity := fst (asMap (index record "userIdentity")) in
  eqString (index userIdentity "invokedBy") "AWS Internal" = false ->
  index record "eventName" = VString en ->
  eventNameSwitch L record userIdentity en = Leave ->
  (record !! "userAgent" = None ->
     exists tr', filterRecord L W evt record tr = (Ok Notify, tr')) /\
  (forall ua, record !! "userAgent" = Some (VString ua) ->
     ((forall t, In t allowList -> holds L t ua = false) ->
      filterRecord L W evt record tr = (Ok Suppress, tr)) /\
     ((exists t, In t allowList /\ holds L t ua = true) ->
      exists tr', filterRecord L W evt record tr = (Ok Notify, tr'))) /\
  (forall t, In t allowList -> holds L t "curl/7.64" = false).
Proof.
  intros userIdentity HA Hen HB.
  rewrite (filterRecord_after_invoker L W evt record tr _ HA Hen).
  fold userIdentity. rewrite HB.
  destruct (userAgentStage_spec L W evt record userIdentity tr)
    as [(name & sent & _ & Hs & _ & Hc) | [[Hs (ua' & Hu & Hx)] | (msg & Hs & v & Hu & Hv)]].
  - split; [eauto|]. split.
    + intros ua Hua. split; [|eauto].
      intros Hnone. exfalso. destruct Hc as [Hc | (ua' & Hc & Hx)]; [congruence|].
      rewrite Hua in Hc. inversion Hc; subst ua'.
      apply existsb_exists in Hx. destruct Hx as (t & Hin & Ht).
      rewrite (Hnone t Hin) in Ht. discriminate.
    + intros t Hin. unfold allowList in Hin. simpl in Hin.
      decompose [or] Hin; subst; try contradiction; vm_compute; reflexivity.
  - split; [congruence|]. split.
    + intros ua Hua. rewrite Hu in Hua. inversion Hua; subst ua'. split; [auto|].
      intros (t & Hin & Ht). exfalso.
      assert (K : existsb (fun t => holds L t ua) (map fst userAgentCases) = true);
        [|congruence].
      apply existsb_exists. eauto.
    + intros t Hin. unfold allowList in Hin. simpl in Hin.
      decompose [or] Hin; subst; try contradiction; vm_compute; reflexivity.
  - split; [congruence|]. split.
    + intros ua Hua. rewrite Hu in Hua. inversion Hua; subst v. discriminate.
    + intros t Hin. unfold allowList in Hin. simpl in Hin.
      decompose [or] Hin; subst; try contradiction; vm_compute; reflexivity.
Qed.

(** C8 at a request made with curl. *)
Lemma C8_witness :
  filterRecord plainLib quietWorld sampleEvt curlRecord [] = (Ok Suppress, []).
Proof.
  destruct (C8_user_agent_allow_list plainLib quietWorld sampleEvt curlRecord "CreateUser" [])
    as (_ & H & Hcurl); [vm_compute; reflexivity ..|].
  apply (H "curl/7.64"); [vm_compute; reflexivity | exact Hcurl].
Defined.

(** C9.  For an object whose key contains [/CloudTrail-Digest/] or [/Config/],
    [fetchLogFromS3] returns no object and no error without a request to the
    bucket, and [Stream] returns [nil] with the events as they were: no
    request, no record read, no entry logged, no message sent. *)
Theorem C9_digest_and_config_keys_are_skipped (L : Lib) (W : World) (evt : S3EventRecord)
    (tr : list event) :
  (exists a b, ObjectKey evt = a +:+ "/CloudTrail-Digest/" +:+ b) \/
  (exists a b, ObjectKey evt = a +:+ "/Config/" +:+ b) ->
  fetchLogFromS3 W (BucketName evt) (ObjectKey evt) tr = (Ok (None, None), tr) /\
  Stream L W evt tr = (Ok None, tr).
Proof.
  intros H.
  assert (C : Contains (ObjectKey evt) "/CloudTrail-Digest/" || Contains (ObjectKey evt) "/Config/" = true).
  { apply orb_true_iff. destruct H as [H|H]; [left | right]; now apply Contains_spec. }
  assert (F : fetchLogFromS3 W (BucketName evt) (ObjectKey evt) tr = (Ok (None, None), tr)).
  { unfold fetchLogFromS3. now rewrite C. }
  split; [exact F|].
  unfold Stream. rewrite (bind_Ok _ _ _ tt tr) by reflexivity.
  now rewrite (bind_Ok _ _ _ _ _ F).
Qed.

(** C9 at the key of a digest file. *)
Lemma C9_witness :
  Stream plainLib quietWorld digestEvt [] = (Ok None, []).
Proof.
  apply (C9_digest_and_config_keys_are_skipped plainLib quietWorld digestEvt []).
  left. exists "AWSLogs/1", "eu-west-1/2020/01/01/d.json.gz". reflexivity.
Defined.

(** C10 (as amended).  The three patterns of the allow-list are searched for
    anywhere in the user agent.  [aws-internal*] is found exactly when the
    runes of [aws-interna] occur in it, so every user agent that contains
    [aws-interna] matches an entry of the allow-list, and a record that
    reaches the check of the user agent with it is notified.
    [console.*.amazonaws.com] and [signin.*.amazonaws.com] are found exactly
    when the user agent holds [console] (or [signin]), then any characters
    other than a line feed, one such character, [amazonaws], one such
    character, and [com]. *)
Theorem C10_allow_list_patterns (L : Lib) (ua : string) :
  (matchString "aws-internal*" ua = true <->
   exists pre post, runes ua = pre ++ runes "aws-interna" ++ post) /\
  ((exists a b, ua = a +:+ "aws-interna" +:+ b) ->
   matchString "aws-internal*" ua = true /\
   In (Matches "aws-internal*") allowList /\
   holds L (Matches "aws-internal*") ua = true /\
   forall W evt record en tr,
     eqString (index (fst (asMap (index record "userIdentity"))) "invokedBy") "AWS Internal" = false ->
     index record "eventName" = VString en ->
     eventNameSwitch L record (fst (asMap (index record "userIdentity"))) en = Leave ->
     record !! "userAgent" = Some (VString ua) ->
     exists tr', filterRecord L W evt record tr = (Ok Notify, tr')) /\
  (matchString "console.*.amazonaws.com" ua = true <->
   exists pre mid c1 c2 post,
     runes ua = pre ++ runes "console" ++ mid ++ c1 :: runes "amazonaws" ++ c2 :: runes "com" ++ post /\
     no_newline mid /\ c1 <> 10 /\ c2 <> 10) /\
  (matchString "signin.*.amazonaws.com" ua = true <->
   exists pre mid c1 c2 post,
     runes ua = pre ++ runes "signin" ++ mid ++ c1 :: runes "amazonaws" ++ c2 :: runes "com" ++ post /\
     no_newline mid /\ c1 <> 10 /\ c2 <> 10).
Proof.
  assert (A : matchString "aws-internal*" ua = true <->
              exists pre post, runes ua = pre ++ runes "aws-interna" ++ post).
  { unfold matchString, MatchString.
    change (Compile "aws-internal*")
      with (Some (lits (runes "aws-interna") (Concat (Star (Literal 108)) EmptyMatch))).
    cbn [fst]. apply search_starred. }
  split; [exact A|]. split; [|split].
  - intros (a & b & ->).
    assert (M : matchString "aws-internal*" (a +:+ "aws-interna" +:+ b) = true).
    { apply A. exists (runes a), (runes b). apply runes_around_aws_interna. }
    split; [exact M|]. split; [unfold allowList; simpl; tauto|]. split; [exact M|].
    intros W evt record en tr HA Hen HB Hua.
    rewrite (filterRecord_after_invoker L W evt record tr _ HA Hen), HB.
    destruct (userAgentStage_spec L W evt record (fst (asMap (index record "userIdentity"))) tr)
      as [(name & sent & _ & Hs & _) | [[_ (ua' & Hu & Hx)] | (msg & _ & v & Hu & Hv)]].
    + eauto.
    + exfalso. assert (E : ua' = a +:+ "aws-interna" +:+ b) by congruence. subst ua'.
      assert (K : existsb (fun t => holds L t (a +:+ "aws-interna" +:+ b))
                    (map fst userAgentCases) = true); [|congruence].
      apply existsb_exists. exists (Matches "aws-internal*").
      split; [simpl; tauto | exact M].
    + exfalso. assert (E : v = VString (a +:+ "aws-interna" +:+ b)) by congruence.
      subst v. discriminate.
  - unfold matchString, MatchString.
    change (Compile "console.*.amazonaws.com")
      with (Some (lits (runes "console") (Concat (Star AnyCharNotNL)
              (Concat AnyCharNotNL (lits (runes "amazonaws")
                (Concat AnyCharNotNL (lits (runes "com") EmptyMatch))))))).
    cbn [fst]. apply search_dotted.
  - unfold matchString, MatchString.
    change (Compile "signin.*.amazonaws.com")
      with (Some (lits (runes "signin") (Concat (Star AnyCharNotNL)
              (Concat AnyCharNotNL (lits (runes "amazonaws")
                (Concat AnyCharNotNL (lits (runes "com") EmptyMatch))))))).
    cbn [fst]. apply search_dotted.
Qed.

(** C10, the claim as written fails: [.] does not stand for every character.
    The text of the console pattern occurs in [newlineAgent] with a line feed
    in the place of the last dot; the pattern does not match it, and the
    record is suppressed. *)
Lemma C10_dot_does_not_match_newline :
  runes newlineAgent = runes "console" ++ [] ++ 45 :: runes "amazonaws" ++ 10 :: runes "com" /\
  matchString "console.*.amazonaws.com" newlineAgent = false /\
  filterRecord plainLib quietWorld sampleEvt newlineRecord [] = (Ok Suppress, []).
Proof. repeat split; vm_compute; reflexivity. Qed.

(** The amended C10 at a user agent that mentions [aws-interna] in passing. *)
Lemma C10_witness :
  fst (filterRecord plainLib quietWorld sampleEvt internalToolRecord []) = Ok Notify.
Proof.
  destruct (C10_allow_list_patterns plainLib "Boto3/1.9 aws-interna/3") as (_ & H & _).
  destruct H as (_ & _ & _ & H); [exists "Boto3/1.9 ", "/3"; reflexivity|].
  destruct (H quietWorld sampleEvt internalToolRecord "CreateUser" []) as [tr' E];
    [vm_compute; reflexivity ..|].
  now rewrite E.
Defined.

(** ** Part III: further properties of the handler *)

(** *** Events are only added *)

Lemma framed_ret {A : Type} (a : A) : framed (ret a).
Proof. intros tr. unfold ret. simpl. now rewrite app_nil_r. Qed.

Lemma framed_panic {A : Type} (msg : string) : framed (@panic A msg).
Proof. intros tr. unfold panic. simpl. now rewrite app_nil_r. Qed.

Lemma framed_emit (e : event) : framed (emit e).
Proof. intros tr. reflexivity. Qed.

Lemma framed_log (l : Level) (msg : string) (fields : option Fields) : framed (log l msg fields).
Proof. unfold log. destruct (IsLevelEnabled l); [apply framed_emit | apply framed_ret]. Qed.

Lemma framed_bind {A B : Type} (m : M A) (k : A -> M B) :
  framed m -> (forall a, framed (k a)) -> framed (bind m k).
Proof.
  intros Hm Hk tr. unfold bind. rewrite (Hm tr).
  destruct (m []) as [[a|msg] s]; simpl.
  - rewrite (Hk a (tr ++ s)), (Hk a s). simpl. now rewrite app_assoc.
  - reflexivity.
Qed.

Lemma framed_SendSlackNotification (L : Lib) (W : World) (url body : string) :
  framed (SendSlackNotification L W url body).
Proof.
  unfold SendSlackNotification. destruct (http_NewRequest L url); [apply framed_ret|].
  apply framed_bind; [apply framed_emit|]. intros _.
  destruct (http_Do W url body); [|apply framed_ret].
  destruct (negb _); apply framed_ret.
Qed.

Lemma framed_actorName (L : Lib) (userIdentity : object) : framed (actorName L userIdentity).
Proof.
  unfold actorName. apply framed_bind; [|intros; apply framed_ret].
  destruct (Contains _ ":"); [|apply framed_ret].
  unfold at_index. destruct (nth_error _ 1); [apply framed_ret | apply framed_panic].
Qed.

Lemma framed_notify (L : Lib) (W : World) (evt : S3EventRecord) (record userIdentity : object) :
  framed (notify L W evt record userIdentity).
Proof.
  unfold notify. apply framed_bind; [apply framed_actorName|]. intros name.
  apply framed_bind; [apply framed_log|]. intros _.
  destruct (LookupEnv W "SLACK_WEBHOOK"); [|apply framed_ret].
  apply framed_bind; [apply framed_SendSlackNotification|]. intros [e|]; [|apply framed_ret].
  apply framed_bind; [apply framed_log | intros; apply framed_log].
Qed.

Lemma framed_userAgentStage (L : Lib) (W : World) (evt : S3EventRecord) (record userIdentity : object) :
  framed (userAgentStage L W evt record userIdentity).
Proof.
  unfold userAgentStage, userAgentSwitch. apply framed_bind.
  - destruct (record !! "userAgent") as [v|]; [|apply framed_ret].
    apply framed_bind; [|intros; apply framed_ret].
    unfold assertString. destruct v; try apply framed_panic. apply framed_ret.
  - intros [|]; [apply framed_ret|].
    apply framed_bind; [apply framed_notify | intros; apply framed_ret].
Qed.

Lemma framed_filterRecord (L : Lib) (W : World) (evt : S3EventRecord) (record : object) :
  framed (filterRecord L W evt record).
Proof.
  unfold filterRecord. destruct (eqString _ "AWS Internal"); [apply framed_ret|].
  apply framed_bind.
  - unfold assertString. destruct (index record "eventName"); try apply framed_panic. apply framed_ret.
  - intros en. destruct (eventNameSwitch L record _ en); [apply framed_ret|].
    apply framed_userAgentStage.
Qed.

Lemma framed_filterRecords (L : Lib) (W : World) (evt : S3EventRecord) (records : list object) :
  framed (filterRecords L W evt records).
Proof.
  induction records as [|record rest IH]; cbn [filterRecords]; [apply framed_ret|].
  apply framed_bind; [apply framed_filterRecord|]. intros v.
  apply framed_bind; [exact IH | intros; apply framed_ret].
Qed.

Lemma framed_fetchLogFromS3 (W : World) (s3Bucket s3Object : string) :
  framed (fetchLogFromS3 W s3Bucket s3Object).
Proof.
  unfold fetchLogFromS3. destruct (_ || _); [apply framed_ret|].
  apply framed_bind; [apply framed_emit|]. intros _.
  destruct (GetObject W s3Bucket s3Object) as [obj|[m|m]]; apply framed_ret.
Qed.

Lemma framed_Stream (L : Lib) (W : World) (evt : S3EventRecord) : framed (Stream L W evt).
Proof.
  unfold Stream. apply framed_bind; [apply framed_log|]. intros _.
  apply framed_bind; [apply framed_fetchLogFromS3|]. intros [[obj|] [err|]]; try apply framed_ret.
  destruct (readLogFile L obj); [|apply framed_ret].
  apply framed_bind.
  - unfold FilterRecords. apply framed_bind; [apply framed_filterRecords | intros; apply framed_ret].
  - intros [e|]; apply framed_ret.
Qed.

Lemma framed_streamAll (L : Lib) (W : World) (s3Records : list S3EventRecord) :
  framed (streamAll L W s3Records).
Proof.
  induction s3Records as [|r rest IH]; cbn [streamAll]; [apply framed_ret|].
  apply framed_bind; [apply framed_Stream|]. intros [e|]; [apply framed_ret | exact IH].
Qed.

(** *** Records of one file *)

(** What a record does and yields does not depend on where it stands. *)
Lemma filterRecord_frame (L : Lib) (W : World) (evt : S3EventRecord) (record : object)
    (tr : list event) :
  filterRecord L W evt record tr =
    (fst (filterRecord L W evt record []), tr ++ snd (filterRecord L W evt record [])).
Proof. apply framed_filterRecord. Qed.

Lemma filterRecord_panic_adds_nothing (L : Lib) (W : World) (evt : S3EventRecord)
    (record : object) (msg : string) :
  fst (filterRecord L W evt record []) = Panicked msg ->
  snd (filterRecord L W evt record []) = [].
Proof.
  intros H.
  destruct (filterRecord_outcome L W evt record [])
    as [(name & sent & _ & Hs & _) | [Hs | (m & Hs)]]; rewrite Hs in *; simpl in *;
    try discriminate; reflexivity.
Qed.

(** X1.  A file that is processed to its end is processed record by record in
    file order: the verdict of each record is the one it gets on its own, and
    the events added are those of the records one after the other.  No record
    influences another. *)
Theorem X1_records_processed_in_file_order (L : Lib) (W : World) (evt : S3EventRecord)
    (records : list object) (verdicts : list verdict) (tr tr' : list event) :
  filterRecords L W evt records tr = (Ok verdicts, tr') ->
  Forall2 (fun record v => fst (filterRecord L W evt record []) = Ok v) records verdicts /\
  tr' = tr ++ flat_map (fun record => snd (filterRecord L W evt record [])) records.
Proof.
  revert verdicts tr tr'. induction records as [|record rest IH]; intros verdicts tr tr' H.
  - inversion H; subst. split; [constructor | now rewrite app_nil_r].
  - cbn [filterRecords] in H. unfold bind at 1 in H.
    rewrite filterRecord_frame in H.
    destruct (fst (filterRecord L W evt record [])) as [v|msg] eqn:E; [|discriminate].
    unfold bind at 1 in H.
    destruct (filterRecords L W evt rest _) as [[vs|msg] tr''] eqn:R; [|discriminate].
    inversion H; subst. destruct (IH _ _ _ R) as [H1 H2]. split.
    + constructor; assumption.
    + rewrite H2. cbn [flat_map]. now rewrite app_assoc.
Qed.

(** X1 at a file of three records. *)
Lemma X1_witness :
  Forall2 (fun record v => fst (filterRecord plainLib quietWorld sampleEvt record []) = Ok v)
    [readRecord; consoleRecord; curlRecord] [Suppress; Notify; Suppress].
Proof.
  apply (X1_records_processed_in_file_order plainLib quietWorld sampleEvt
           [readRecord; consoleRecord; curlRecord] [Suppress; Notify; Suppress] []
           (snd (filterRecord plainLib quietWorld sampleEvt consoleRecord []))).
  vm_compute. reflexivity.
Defined.

(** X2.  When a type assertion panics on a record, the file is abandoned
    there: what the records before it logged and sent stays, the record itself
    adds nothing, and the records after it are never looked at. *)
Theorem X2_panic_abandons_the_rest (L : Lib) (W : World) (evt : S3EventRecord)
    (before : list object) (record : object) (rest : list object) (msg : string)
    (verdicts : list verdict) (tr tr' : list event) :
  filterRecords L W evt before tr = (Ok verdicts, tr') ->
  fst (filterRecord L W evt record []) = Panicked msg ->
  filterRecords L W evt (before ++ record :: rest) tr = (Panicked msg, tr').
Proof.
  intros Hb Hp. revert verdicts tr tr' Hb.
  induction before as [|b before IH]; intros verdicts tr tr' Hb.
  - inversion Hb; subst. cbn [app filterRecords]. unfold bind at 1.
    rewrite filterRecord_frame, Hp, (filterRecord_panic_adds_nothing _ _ _ _ _ Hp).
    now rewrite app_nil_r.
  - cbn [app filterRecords] in *. unfold bind at 1 in Hb. unfold bind at 1.
    destruct (filterRecord L W evt b tr) as [[v|m] t1]; [|discriminate].
    unfold bind at 1 in Hb.
    destruct (filterRecords L W evt before t1) as [[vs|m] t2] eqn:R; [|discriminate].
    inversion Hb; subst. unfold bind at 1. now rewrite (IH _ _ _ R).
Qed.

(** X2 at a file whose second record has no event name. *)
Lemma X2_witness :
  filterRecords plainLib quietWorld sampleEvt [consoleRecord; namelessRecord; consoleRecord] [] =
    (Panicked "interface conversion: interface {} is nil, not string",
     snd (filterRecord plainLib quietWorld sampleEvt consoleRecord [])).
Proof.
  apply (X2_panic_abandons_the_rest plainLib quietWorld sampleEvt [consoleRecord] namelessRecord
           [consoleRecord] _ [Notify] []); vm_compute; reflexivity.
Defined.

(** X3.  The user agent is asserted to be a string in the one-result form
    too: a record that reaches the check of the user agent with a [userAgent]
    that is present and holds no string (JSON [null], a number) makes the
    filter panic, before anything is logged. *)
Theorem X3_userAgent_assertion_panics (L : Lib) (W : World) (evt : S3EventRecord)
    (record : object) (en : string) (v : value) (tr : list event) :
  eqString (index (fst (asMap (index record "userIdentity"))) "invokedBy") "AWS Internal" = false ->
  index record "eventName" = VString en ->
  eventNameSwitch L record (fst (asMap (index record "userIdentity"))) en = Leave ->
  record !! "userAgent" = Some v ->
  snd (asString v) = false ->
  filterRecord L W evt record tr =
    (Panicked ("interface conversion: interface {} is " +:+ typeName v +:+ ", not string"), tr).
Proof.
  intros HA Hen HB Hu Hv.
  rewrite (filterRecord_after_invoker L W evt record tr _ HA Hen), HB.
  unfold userAgentStage, userAgentSwitch. rewrite Hu.
  destruct v; try discriminate Hv; reflexivity.
Qed.

(** X3 at a user agent that is [null]. *)
Lemma X3_witness :
  filterRecord plainLib quietWorld sampleEvt nullAgentRecord [] =
    (Panicked "interface conversion: interface {} is nil, not string", []).
Proof.
  apply (X3_userAgent_assertion_panics plainLib quietWorld sampleEvt nullAgentRecord
           "CreateUser" VNil []); vm_compute; reflexivity.
Defined.

(** The verdict of a record, read off the record. *)
Lemma filterRecord_verdict (L : Lib) (W : World) (evt : S3EventRecord) (record : object)
    (tr : list event) :
  fst (filterRecord L W evt record tr) =
    if eqString (index (fst (asMap (index record "userIdentity"))) "invokedBy") "AWS Internal"
    then Ok Suppress
    else match index record "eventName" with
         | VString en =>
           match eventNameSwitch L record (fst (asMap (index record "userIdentity"))) en with
           | Continue => Ok Suppress
           | Leave =>
             match record !! "userAgent" with
             | None => Ok Notify
             | Some (VString ua) =>
               if existsb (fun t => holds L t ua) allowList then Ok Notify else Ok Suppress
             | Some v =>
               Panicked ("interface conversion: interface {} is " +:+ typeName v +:+ ", not string")
             end
           end
         | v => Panicked ("interface conversion: interface {} is " +:+ typeName v +:+ ", not string")
         end.
Proof.
  unfold filterRecord.
  destruct (eqString _ "AWS Internal"); [reflexivity|].
  destruct (index record "eventName") as [ | b | f | en | l | m ]; try reflexivity.
  rewrite (bind_Ok _ _ _ en tr) by reflexivity.
  destruct (eventNameSwitch L record _ en); [reflexivity|].
  destruct (userAgentStage_spec L W evt record (fst (asMap (index record "userIdentity"))) tr)
    as [(name & sent & _ & Hs & _ & Hc) | [[Hs (ua & Hu & Hx)] | (msg & Hs & v & Hu & Hv)]];
    rewrite Hs; cbn [fst].
  - destruct Hc as [-> | (ua & -> & Hx)]; [reflexivity|].
    unfold allowList. now rewrite Hx.
  - rewrite Hu. unfold allowList. now rewrite Hx.
  - unfold userAgentStage, userAgentSwitch in Hs. rewrite Hu in *.
    destruct v; try discriminate Hv; inversion Hs; reflexivity.
Qed.

(** X4.  A record is notified exactly when four things hold: its invoker is
    not the internal platform; its event name is a string; the event-name
    switch is left without [continue]; and its user agent is either absent or
    a string that an entry of the allow-list matches. *)
Theorem X4_Notify_iff (L : Lib) (W : World) (evt : S3EventRecord) (record : object)
    (tr : list event) :
  fst (filterRecord L W evt record tr) = Ok Notify <->
  eqString (index (fst (asMap (index record "userIdentity"))) "invokedBy") "AWS Internal" = false /\
  exists en,
    index record "eventName" = VString en /\
    eventNameSwitch L record (fst (asMap (index record "userIdentity"))) en = Leave /\
    (record !! "userAgent" = None \/
     exists ua, record !! "userAgent" = Some (VString ua) /\
                exists t, In t allowList /\ holds L t ua = true).
Proof.
  rewrite filterRecord_verdict.
  destruct (eqString _ "AWS Internal").
  { split; [discriminate | intros [H _]; discriminate]. }
  destruct (index record "eventName") as [ | b | f | en | l | m ];
    try (split; [discriminate | intros (_ & en' & H & _); discriminate]).
  destruct (eventNameSwitch L record _ en) eqn:B.
  { split; [discriminate|]. intros (_ & en' & H & H' & _). inversion H; subst. congruence. }
  destruct (record !! "userAgent") as [v|] eqn:U.
  - destruct v as [ | b | f | ua | l | m ];
      try (split; [discriminate|];
           intros (_ & en' & _ & _ & [H | (ua' & H & _)]); discriminate).
    destruct (existsb (fun t => holds L t ua) allowList) eqn:X.
    + split; [|reflexivity]. intros _. split; [reflexivity|].
      exists en. split; [reflexivity|]. split; [exact B|]. right.
      exists ua. split; [reflexivity|]. apply existsb_exists in X. exact X.
    + split; [discriminate|].
      intros (_ & en' & _ & _ & [H | (ua' & H & t & Hin & Ht)]); [discriminate|].
      inversion H; subst.
      assert (K : existsb (fun t => holds L t ua') allowList = true); [|congruence].
      apply existsb_exists. eauto.
  - split; [|reflexivity]. intros _. split; [reflexivity|].
    exists en. split; [reflexivity|]. split; [exact B|]. now left.
Qed.

(** X5.  The verdict on a record depends on the record alone: not on the
    environment, the webhook's answer, the object the record came from or the
    events so far.  The entry logged for it does not depend on the environment
    or the webhook either, so a delivery that fails changes neither. *)
Theorem X5_verdict_depends_on_the_record_alone (L : Lib) (W W' : World)
    (evt evt' : S3EventRecord) (record : object) (tr tr' : list event) :
  fst (filterRecord L W evt record tr) = fst (filterRecord L W' evt' record tr') /\
  entries (snd (filterRecord L W evt record [])) = entries (snd (filterRecord L W' evt record [])).
Proof.
  split; [now rewrite !filterRecord_verdict|].
  assert (V : fst (filterRecord L W evt record []) = fst (filterRecord L W' evt record []))
    by now rewrite !filterRecord_verdict.
  destruct (filterRecord_outcome L W evt record [])
    as [(n1 & s1 & A1 & H1 & E1) | [H1 | (m1 & H1)]];
  destruct (filterRecord_outcome L W' evt record [])
    as [(n2 & s2 & A2 & H2 & E2) | [H2 | (m2 & H2)]];
  rewrite H1, H2 in *; cbn [fst snd] in *; try discriminate; try reflexivity.
  assert (n1 = n2) by congruence. subst n2.
  cbn [app entries]. now rewrite E1, E2.
Qed.

(** *** Delivery *)

Lemma posts_app (a b : list event) : posts (a ++ b) = posts a ++ posts b.
Proof.
  induction a as [|e a IH]; [reflexivity|].
  destruct e; simpl; rewrite IH; reflexivity.
Qed.

(** All that [notify] does: the entry, then the delivery. *)
Lemma notify_trace (L : Lib) (W : World) (evt : S3EventRecord) (record userIdentity : object)
    (tr : list event) :
  exists name,
    actorName L userIdentity [] = (Ok name, []) /\
    notify L W evt record userIdentity tr =
      (Ok tt, tr ++ LogEntry InfoLevel "Event" (Some (eventFields L evt record userIdentity name))
                 :: delivery L W (slackBody L W record userIdentity name)).
Proof.
  destruct (actorName_ok L userIdentity []) as [name Hn0].
  assert (Hn : actorName L userIdentity tr = (Ok name, tr)).
  { rewrite (framed_actorName L userIdentity tr), Hn0. simpl. now rewrite app_nil_r. }
  exists name. split; [exact Hn0|]. unfold notify.
  rewrite (bind_Ok _ _ _ _ _ Hn).
  rewrite (bind_Ok _ _ _ tt (tr ++ [LogEntry InfoLevel "Event"
             (Some (eventFields L evt record userIdentity name))])) by reflexivity.
  unfold delivery, slackBody, accountLabel.
  match goal with
  | |- context [Sprintf L (requote slackTemplate) ?a] =>
    generalize (Sprintf L (requote slackTemplate) a)
  end.
  intros body.
  destruct (LookupEnv W "SLACK_WEBHOOK") as [url|].
  - unfold SendSlackNotification. destruct (http_NewRequest L url) as [e|].
    + rewrite (bind_Ok _ _ _ (Some e) (tr ++ [LogEntry InfoLevel "Event"
                 (Some (eventFields L evt record userIdentity name))])) by reflexivity.
      reflexivity.
    + unfold bind, emit, ret, log. simpl.
      destruct (http_Do W url body) as [buf|e]; [destruct (negb _)|]; simpl;
        now rewrite <- app_assoc.
  - reflexivity.
Qed.

#[local] Arguments slackBody : simpl never.

(** The events a record adds: for a notified record the entry and the
    delivery, for any other record none. *)
Lemma filterRecord_added (L : Lib) (W : World) (evt : S3EventRecord) (record : object) :
  (fst (filterRecord L W evt record []) = Ok Notify /\
   exists name,
     actorName L (fst (asMap (index record "userIdentity"))) [] = (Ok name, []) /\
     snd (filterRecord L W evt record []) =
       LogEntry InfoLevel "Event"
         (Some (eventFields L evt record (fst (asMap (index record "userIdentity"))) name))
       :: delivery L W (slackBody L W record (fst (asMap (index record "userIdentity"))) name)) \/
  (fst (filterRecord L W evt record []) <> Ok Notify /\
   snd (filterRecord L W evt record []) = []).
Proof.
  destruct (notify_trace L W evt record (fst (asMap (index record "userIdentity"))) [])
    as (name & Hn & Ht).
  assert (N : bind (notify L W evt record (fst (asMap (index record "userIdentity"))))
                (fun _ => ret Notify) [] =
              (Ok Notify, LogEntry InfoLevel "Event"
                 (Some (eventFields L evt record (fst (asMap (index record "userIdentity"))) name))
               :: delivery L W (slackBody L W record (fst (asMap (index record "userIdentity"))) name))).
  { now rewrite (bind_Ok _ _ _ _ _ Ht). }
  unfold filterRecord.
  destruct (eqString _ "AWS Internal"); [right; split; [discriminate | reflexivity]|].
  destruct (index record "eventName") as [ | b | f | en | l | m ];
    try (right; split; [discriminate | reflexivity]).
  rewrite (bind_Ok _ _ _ en []) by reflexivity.
  destruct (eventNameSwitch L record _ en); [right; split; [discriminate | reflexivity]|].
  unfold userAgentStage, userAgentSwitch.
  destruct (record !! "userAgent") as [v|].
  - destruct v as [ | b | f | ua | l | m ];
      try (right; split; [discriminate | reflexivity]).
    rewrite (bind_Ok _ _ _ (switch L ua userAgentCases Continue) []) by reflexivity.
    destruct (switch L ua userAgentCases Continue).
    + right; split; [discriminate | reflexivity].
    + left. rewrite N. split; [reflexivity|]. eauto.
  - rewrite (bind_Ok _ _ _ Leave []) by reflexivity. left. rewrite N.
    split; [reflexivity|]. eauto.
Qed.


(** The events a file adds, whether it is processed to its end or not, are
    those of a prefix of its records. *)
Lemma filterRecords_added (L : Lib) (W : World) (evt : S3EventRecord) (records : list object)
    (tr : list event) :
  exists done,
    (exists todo, records = done ++ todo) /\
    snd (filterRecords L W evt records tr) =
      tr ++ flat_map (fun record => snd (filterRecord L W evt record [])) done.
Proof.
  revert tr. induction records as [|record rest IH]; intros tr.
  - exists []. split; [now exists [] | simpl; now rewrite app_nil_r].
  - cbn [filterRecords]. unfold bind at 1. rewrite filterRecord_frame.
    destruct (fst (filterRecord L W evt record [])) as [v|msg] eqn:E.
    + destruct (IH (tr ++ snd (filterRecord L W evt record []))) as (done & [todo ->] & Hd).
      exists (record :: done). split; [now exists todo|].
      unfold bind at 1.
      destruct (filterRecords L W evt (done ++ todo) _) as [[vs|m] t2]; simpl in *;
        rewrite Hd; now rewrite <- app_assoc.
    + exists []. split; [now exists (record :: rest)|].
      simpl. rewrite (filterRecord_panic_adds_nothing _ _ _ _ _ E). reflexivity.
Qed.

(** X6.  Without [SLACK_WEBHOOK] in the environment nothing is ever posted,
    whatever the records are and however the processing of the file ends. *)
Theorem X6_no_webhook_no_post (L : Lib) (W : World) (evt : S3EventRecord)
    (records : list object) (tr : list event) :
  LookupEnv W "SLACK_WEBHOOK" = None ->
  posts (snd (filterRecords L W evt records tr)) = posts tr.
Proof.
  intros HW.
  destruct (filterRecords_added L W evt records tr) as (done & _ & ->).
  rewrite posts_app.
  assert (Z : posts (flat_map (fun record => snd (filterRecord L W evt record [])) done) = []).
  { induction done as [|r done IH]; [reflexivity|].
    cbn [flat_map]. rewrite posts_app, IH, app_nil_r.
    destruct (filterRecord_added L W evt r) as [(_ & name & _ & ->) | (_ & ->)]; [|reflexivity].
    unfold delivery. now rewrite HW. }
  rewrite Z. apply app_nil_r.
Qed.

(** X6 at a file with a console action, in a world with no webhook. *)
Lemma X6_witness :
  posts (snd (filterRecords plainLib quietWorld sampleEvt [consoleRecord; readRecord] [])) = [].
Proof.
  apply (X6_no_webhook_no_post plainLib quietWorld sampleEvt [consoleRecord; readRecord] []).
  reflexivity.
Defined.



(** *** The account label and the webhook *)

Lemma Sprintf_SLACK_NAME (L : Lib) (v : value) :
  Sprintf L "SLACK_NAME_%s" [v] = "SLACK_NAME_" +:+ fmt_s L v.
Proof. simpl. now rewrite append_nil_r. Qed.

(** X8.  The label of the account in the message is looked up in this order:
    the variable [SLACK_NAME_<account id>], then [SLACK_NAME], then the
    account id itself; a variable that is set to the empty string counts as
    not set.  The label is therefore empty only when the string form of the
    account id is. *)
Theorem X8_account_label_precedence (L : Lib) (W : World) (userIdentity : object) :
  let id := fmt_s L (index userIdentity "accountId") in
  let own := LookupEnv W ("SLACK_NAME_" +:+ id) in
  let shared := LookupEnv W "SLACK_NAME" in
  (forall v, own = Some v -> v <> EmptyString -> accountLabel L W userIdentity = v) /\
  (own = None \/ own = Some EmptyString ->
   forall v, shared = Some v -> v <> EmptyString -> accountLabel L W userIdentity = v) /\
  (own = None \/ own = Some EmptyString ->
   shared = None \/ shared = Some EmptyString ->
   accountLabel L W userIdentity = id) /\
  (accountLabel L W userIdentity = EmptyString -> id = EmptyString).
Proof.
  intros id own shared. unfold accountLabel, getEnv.
  rewrite Sprintf_SLACK_NAME, Sprintf_s. fold id own shared.
  repeat split.
  - intros v -> N. apply String.eqb_neq in N. now rewrite N.
  - intros Ho v -> N. apply String.eqb_neq in N. rewrite N.
    destruct Ho as [-> | ->]; reflexivity.
  - intros Ho Hs. destruct Ho as [-> | ->], Hs as [-> | ->]; reflexivity.
  - destruct own as [v|]; [destruct (String.eqb_spec v EmptyString)|];
      try (intros; congruence);
      destruct shared as [w|]; try (intros H; exact H);
      destruct (String.eqb_spec w EmptyString); intros; congruence.
Qed.

(** X8 in a world that names the account of [bobIdentity]. *)
Lemma X8_witness :
  accountLabel plainLib labelWorld bobIdentity = "production" /\
  accountLabel plainLib labelWorld (mkRecord [("accountId", VString "000000000000")]) = "aws".
Proof.
  split.
  - destruct (X8_account_label_precedence plainLib labelWorld bobIdentity) as (H & _).
    apply H; [vm_compute; reflexivity | discriminate].
  - destruct (X8_account_label_precedence plainLib labelWorld
                (mkRecord [("accountId", VString "000000000000")])) as (_ & H & _).
    apply H; [right; vm_compute; reflexivity | vm_compute; reflexivity | discriminate].
Defined.


(** *** The cases of the event-name switch *)

Lemma HasSuffix_spec (s suffix : string) :
  HasSuffix s suffix = true <-> exists a, s = a +:+ suffix.
Proof.
  split.
  - induction s as [|c s IH]; cbn [HasSuffix].
    + destruct (String.eqb_spec EmptyString suffix) as [<-|]; [|discriminate].
      intros _. now exists EmptyString.
    + destruct (String.eqb_spec (String c s) suffix) as [<-|].
      * intros _. now exists EmptyString.
      * intros H. destruct (IH H) as [a ->]. now exists (String c a).
  - intros [a ->]. induction a as [|c a IH].
    + simpl. destruct suffix; cbn [HasSuffix]; now rewrite String.eqb_refl.
    + change (String c a +:+ suffix) with (String c (a +:+ suffix)).
      cbn [HasSuffix]. now destruct (String.eqb _ suffix).
Qed.

Lemma eventNameSwitch_PutObject (L : Lib) (record userIdentity : object) :
  eventNameSwitch L record userIdentity "PutObject" = putObject record.
Proof.
  unfold eventNameSwitch, eventNameCases.
  rewrite switch_skip by (vm_compute; reflexivity). reflexivity.
Qed.

Lemma putObject_spec (record : object) :
  putObject record = Continue <->
  exists rps rest,
    index record "requestParameters" = VObject rps /\
    index rps "key" = VString ("elb/AWSLogs" +:+ rest).
Proof.
  unfold putObject. split.
  - destruct (index record "requestParameters") as [ | | | | | rps]; try discriminate.
    cbn [asMap]. destruct (index rps "key") as [ | | | k | | ] eqn:K; try discriminate.
    cbn [asString]. destruct (HasPrefix k "elb/AWSLogs") eqn:P; [|discriminate].
    intros _. apply HasPrefix_spec in P. destruct P as [rest ->]. eauto.
  - intros (rps & rest & -> & K). cbn [asMap]. rewrite K. cbn [asString].
    now rewrite HasPrefix_app.
Qed.

(** X10.  For a record named [PutObject], the event-name switch ends in
    [continue] exactly when [requestParameters] is an object whose [key] is a
    string that starts with [elb/AWSLogs]; then the record is suppressed.
    Otherwise (no [requestParameters], a [key] that is no string, another
    prefix) the switch is left and the record, if the internal-invoker check
    let it through, goes on to the check of the user agent. *)
Theorem X10_PutObject (L : Lib) (W : World) (evt : S3EventRecord) (record : object)
    (tr : list event) :
  index record "eventName" = VString "PutObject" ->
  let userIdentity := fst (asMap (index record "userIdentity")) in
  let elb :=
    exists rps rest,
      index record "requestParameters" = VObject rps /\
      index rps "key" = VString ("elb/AWSLogs" +:+ rest) in
  (eventNameSwitch L record userIdentity "PutObject" = Continue <-> elb) /\
  (elb -> filterRecord L W evt record tr = (Ok Suppress, tr)) /\
  (~ elb ->
   eqString (index userIdentity "invokedBy") "AWS Internal" = false ->
   filterRecord L W evt record tr = userAgentStage L W evt record userIdentity tr).
Proof.
  intros Hen userIdentity elb.
  assert (S : eventNameSwitch L record userIdentity "PutObject" = Continue <-> elb).
  { rewrite eventNameSwitch_PutObject. apply putObject_spec. }
  split; [exact S|]. split.
  - intros T. apply S in T.
    destruct (eqString (index userIdentity "invokedBy") "AWS Internal") eqn:HA.
    + unfold filterRecord. fold userIdentity. now rewrite HA.
    + rewrite (filterRecord_after_invoker L W evt record tr _ HA Hen).
      fold userIdentity. now rewrite T.
  - intros T HA.
    rewrite (filterRecord_after_invoker L W evt record tr _ HA Hen). fold userIdentity.
    destruct (eventNameSwitch L record userIdentity "PutObject"); [|reflexivity].
    exfalso. apply T, S. reflexivity.
Qed.

(** X10 at an upload of load-balancer logs. *)
Lemma X10_witness :
  filterRecord plainLib quietWorld sampleEvt elbUploadRecord [] = (Ok Suppress, []).
Proof.
  apply (X10_PutObject plainLib quietWorld sampleEvt elbUploadRecord []).
  - vm_compute; reflexivity.
  - exists (mkRecord [("key", VString "elb/AWSLogs/123/a.log")]), "/123/a.log".
    split; vm_compute; reflexivity.
Defined.

(** X11.  A record whose event name is one of the ten names the switch lists,
    or ends in [VirtualMFADevice], is suppressed whatever else it holds (also
    when its user agent is a console). *)
Theorem X11_listed_names_are_suppressed (L : Lib) (W : World) (evt : S3EventRecord)
    (record : object) (en : string) (tr : list event) :
  index record "eventName" = VString en ->
  In en suppressedNames \/ (exists a, en = a +:+ "VirtualMFADevice") ->
  filterRecord L W evt record tr = (Ok Suppress, tr).
Proof.
  intros Hen [Hin | Hsuf].
  - apply (plain_case_suppresses L W evt record tr en (Equals en) Hen).
    + simpl in Hin. decompose [or] Hin; subst; try contradiction;
        unfold plainCases; repeat (first [left; reflexivity | right]).
    + cbn [holds]. apply String.eqb_refl.
  - apply (plain_case_suppresses L W evt record tr en (HasSuffixOf "VirtualMFADevice") Hen).
    + unfold plainCases; repeat (first [left; reflexivity | right]).
    + cbn [holds]. now apply HasSuffix_spec.
Qed.

(** X11 at the creation of a virtual MFA device from the console. *)
Lemma X11_witness :
  filterRecord plainLib quietWorld sampleEvt mfaRecord [] = (Ok Suppress, []).
Proof.
  apply (X11_listed_names_are_suppressed plainLib quietWorld sampleEvt mfaRecord
           "CreateVirtualMFADevice" []).
  - vm_compute; reflexivity.
  - right. exists "Create". reflexivity.
Defined.

Lemma some_case_holds (L : Lib) (x : string) (cases : list (test * flow)) :
  forallb (fun c => negb (holds L (fst c) x)) cases = false ->
  exists t, In t (map fst cases) /\ holds L t x = true.
Proof.
  induction cases as [|[t b] cases IH]; simpl; [discriminate|].
  destruct (holds L t x) eqn:E; simpl.
  - intros _. exists t. auto.
  - intros H. destruct (IH H) as (t' & Hin & Ht). exists t'. auto.
Qed.

(** X12.  What the event-name switch decides, in full: it ends in [continue]
    exactly when one of its thirty plain cases holds for the name, or the name
    is [PutQueryDefinition], [PutObject] or [AssumeRole] and the condition in
    the body of that case holds. *)
Theorem X12_event_name_switch_decides (L : Lib) (record userIdentity : object) (en : string) :
  eventNameSwitch L record userIdentity en = Continue <->
  (exists t, In (t, Continue) plainCases /\ holds L t en = true) \/
  (en = "PutQueryDefinition" /\ index record "eventSource" = VString "logs.amazonaws.com") \/
  (en = "PutObject" /\
   exists rps rest,
     index record "requestParameters" = VObject rps /\
     index rps "key" = VString ("elb/AWSLogs" +:+ rest)) \/
  (en = "AssumeRole" /\
   index record "userAgent" = VString "Coral/Netty4" /\
   exists s, In s trustedInvokers /\ index userIdentity "invokedBy" = VString s).
Proof.
  unfold eventNameSwitch, eventNameCases.
  destruct (forallb (fun c => negb (holds L (fst c) en)) plainCases) eqn:F.
  - rewrite (switch_skip L en plainCases _ Leave F).
    assert (NP : ~ exists t, In (t, Continue) plainCases /\ holds L t en = true).
    { intros (t & Hin & Ht). rewrite forallb_forall in F.
      specialize (F _ Hin). simpl in F. rewrite Ht in F. discriminate. }
    cbn [switch holds].
    destruct (String.eqb_spec en "PutQueryDefinition") as [->|N1].
    { unfold putQueryDefinition. split.
      - destruct (eqString _ "logs.amazonaws.com") eqn:E; [|discriminate].
        intros _. right; left. split; [reflexivity | now apply eqString_spec].
      - intros [H | [[_ H] | [[H _] | [H _]]]]; try discriminate H; [contradiction|].
        apply eqString_spec in H. now rewrite H. }
    destruct (String.eqb_spec en "PutObject") as [->|N2].
    { rewrite putObject_spec. split.
      - intros H. right; right; left. split; [reflexivity | exact H].
      - intros [H | [[H _] | [[_ H] | [H _]]]]; try discriminate H; [contradiction | exact H]. }
    destruct (String.eqb_spec en "AssumeRole") as [->|N3].
    { rewrite assumeRole_spec. split.
      - intros H. right; right; right. split; [reflexivity | exact H].
      - intros [H | [[H _] | [[H _] | [_ H]]]]; try discriminate H; [contradiction | exact H]. }
    split; [discriminate|].
    intros [H | [[H _] | [[H _] | [H _]]]]; [contradiction | congruence ..].
  - assert (P : exists t, In t (map fst plainCases) /\ holds L t en = true)
      by (apply some_case_holds; exact F).
    rewrite (switch_Continue L en plainCases _ Leave plainCases_Continue P).
    split; [|reflexivity]. intros _. left.
    destruct P as (t & Hin & Ht). exists t. split; [|exact Ht].
    apply in_map_iff in Hin. destruct Hin as ([t' b] & <- & Hin).
    assert (b = Continue).
    { pose proof plainCases_Continue as FC. rewrite Forall_forall in FC.
      exact (FC _ (proj2 (list_elem_of_In _ _) Hin)). }
    subst b. exact Hin.
Qed.

(** *** The title-case cases on ASCII names *)

Lemma byte_of_val (c : ascii) : byte_of (byte_val c) = c.
Proof. destruct c as [[] [] [] [] [] [] [] []]; vm_compute; reflexivity. Qed.

Lemma byte_val_nonneg (c : ascii) : 0 <= byte_val c.
Proof. unfold byte_val. lia. Qed.

Lemma runes_ascii_cons (c : ascii) (s : string) :
  byte_val c < 128 -> runes (String c s) = byte_val c :: runes s.
Proof.
  intros Hc. unfold runes. cbn [runes_from]. unfold DecodeRuneInString.
  apply Z.ltb_lt in Hc. rewrite Hc. reflexivity.
Qed.

Lemma EncodeRune_ascii (r : Z) :
  0 <= r <= 127 -> EncodeRune r = String (byte_of r) EmptyString.
Proof.
  intros [H0 H1]. unfold EncodeRune.
  apply Z.leb_le in H0. apply Z.leb_le in H1. now rewrite H0, H1.
Qed.

Lemma ToTitle_ascii (L : Lib) (r : Z) :
  0 <= r <= 127 -> 0 <= ToTitle L r <= 127.
Proof.
  intros [H0 H1]. unfold ToTitle.
  destruct (Z.leb_spec r 127); [|lia].
  destruct (Z.leb_spec 97 r), (Z.leb_spec r 122); simpl; lia.
Qed.

(** One step of [Title] on an ASCII byte. *)
Lemma Title_map_ascii_cons (L : Lib) (prev : Z) (c : ascii) (s : string) :
  byte_val c < 128 ->
  Title_map L prev (runes (String c s)) =
    String (if isSeparator L prev then byte_of (ToTitle L (byte_val c)) else c)
           (Title_map L (byte_val c) (runes s)).
Proof.
  intros Hc. rewrite (runes_ascii_cons _ _ Hc). cbn [Title_map].
  pose proof (byte_val_nonneg c) as H0.
  destruct (isSeparator L prev).
  - pose proof (ToTitle_ascii L (byte_val c)) as Ht.
    destruct (Z.ltb_spec (ToTitle L (byte_val c)) 0); [lia|].
    rewrite EncodeRune_ascii by lia. reflexivity.
  - destruct (Z.ltb_spec (byte_val c) 0); [lia|].
    rewrite EncodeRune_ascii by lia. now rewrite byte_of_val.
Qed.

(** After a rune that ends no word, [Title] leaves ASCII letters as they are. *)
Lemma Title_map_keeps_prefix (L : Lib) (q : string) :
  Forall (fun x => isSeparator L (byte_val x) = false) (list_ascii_of_string q) ->
  forall prev s,
    isSeparator L prev = false -> ascii_only s ->
    HasPrefix (Title_map L prev (runes s)) q = HasPrefix s q.
Proof.
  induction q as [|x q IH]; intros Hq prev s Hp Hs; [reflexivity|].
  simpl in Hq. inversion Hq as [|? ? Hx Hq']; subst.
  destruct s as [|c s]; [reflexivity|].
  unfold ascii_only in Hs. simpl in Hs. inversion Hs as [|? ? Hc Hs']; subst.
  rewrite (Title_map_ascii_cons L prev c s Hc), Hp. cbn [HasPrefix].
  destruct (Ascii.eqb_spec c x) as [->|]; [|reflexivity].
  now apply IH.
Qed.

Lemma title_case_exact (L : Lib) (g l : ascii) (q : string) (en : string) :
  byte_of (ToTitle L (byte_val g)) = g -> byte_of (ToTitle L (byte_val l)) = g ->
  (forall c, byte_val c < 128 -> byte_of (ToTitle L (byte_val c)) = g -> c = g \/ c = l) ->
  isSeparator L (byte_val g) = false -> isSeparator L (byte_val l) = false ->
  Forall (fun x => isSeparator L (byte_val x) = false) (list_ascii_of_string q) ->
  ascii_only en ->
  HasPrefix (Title L en) (String g q) = HasPrefix en (String g q) || HasPrefix en (String l q).
Proof.
  intros Hg Hl Honly Sg Sl Hq Hen.
  destruct en as [|c s]; [reflexivity|].
  unfold ascii_only in Hen. simpl in Hen.
  pose proof (List.Forall_inv Hen) as Hc. pose proof (List.Forall_inv_tail Hen) as Hs.
  cbv beta in Hc. unfold Title. rewrite (Title_map_ascii_cons L 32 c s Hc).
  change (isSeparator L 32) with true. cbn [HasPrefix].
  destruct (Ascii.eqb_spec (byte_of (ToTitle L (byte_val c))) g) as [E|N].
  - destruct (Honly c Hc E) as [-> | ->].
    + rewrite Ascii.eqb_refl, (Title_map_keeps_prefix L q Hq _ s Sg Hs).
      now destruct (HasPrefix s q), (Ascii.eqb g l).
    + rewrite Ascii.eqb_refl, (Title_map_keeps_prefix L q Hq _ s Sl Hs).
      now destruct (HasPrefix s q), (Ascii.eqb l g).
  - destruct (Ascii.eqb_spec c g) as [->|]; [congruence|].
    destruct (Ascii.eqb_spec c l) as [->|]; [congruence | reflexivity].
Qed.

Lemma title_of_letter (L : Lib) (g : ascii) (c : ascii) :
  65 <= byte_val g <= 90 ->
  byte_val c < 128 -> byte_of (ToTitle L (byte_val c)) = g ->
  c = g \/ c = byte_of (byte_val g + 32).
Proof.
  intros Hg Hc E. pose proof (byte_val_nonneg c) as H0.
  unfold ToTitle in E. destruct (Z.leb_spec (byte_val c) 127); [|lia].
  destruct (Z.leb_spec 97 (byte_val c)), (Z.leb_spec (byte_val c) 122); cbn [andb] in E.
  - right. rewrite <- E.
    assert (K : byte_val (byte_of (byte_val c - 32)) = byte_val c - 32).
    { clear E Hg. destruct c as [[] [] [] [] [] [] [] []]; vm_compute in *; congruence. }
    rewrite K. replace (byte_val c - 32 + 32) with (byte_val c) by lia.
    now rewrite byte_of_val.
  - left. now rewrite byte_of_val in E.
  - left. now rewrite byte_of_val in E.
  - left. now rewrite byte_of_val in E.
Qed.

(** X13.  On an event name made of ASCII bytes, the three cases that
    title-case the name hold exactly when the name starts with [Get], [List]
    or [View] with the first letter in upper or in lower case: title-casing
    changes nothing else in the test (so [GETObject] or [gET...] does not
    match). *)
Theorem X13_title_case_is_first_letter_only (L : Lib) (en p : string) :
  ascii_only en ->
  In p titleCasePrefixes ->
  holds L (TitleHasPrefix p) en = HasPrefix en p || HasPrefix en (lowerFirst p).
Proof.
  intros Hen Hp. simpl in Hp. decompose [or] Hp; subst; try contradiction; cbn [holds];
    match goal with
    | |- HasPrefix _ (String ?g ?q) = _ =>
      apply (title_case_exact L g (byte_of (byte_val g + 32)) q en);
        [ reflexivity | reflexivity
        | intros c Hc E; apply (title_of_letter L g c); [vm_compute; split; congruence | exact Hc | exact E]
        | reflexivity | reflexivity
        | repeat constructor
        | exact Hen ]
    end.
Qed.

(** X13 at a name in capitals, which the [Get] case does not match. *)
Lemma X13_witness :
  holds plainLib (TitleHasPrefix "Get") "GETObject" = false.
Proof.
  rewrite (X13_title_case_is_first_letter_only plainLib "GETObject" "Get").
  - reflexivity.
  - repeat constructor.
  - simpl; tauto.
Defined.

(** *** The actor's name *)

Lemma colon_free_app (a b : string) :
  colon_free (a +:+ b) <-> colon_free a /\ colon_free b.
Proof.
  induction a as [|c a IH]; simpl.
  - split; [intros H; split; [apply colon_free_nil | exact H] | tauto].
  - rewrite !colon_free_cons, IH. tauto.
Qed.

(** Every string is a piece with no colon, followed by nothing or by a colon
    and more. *)
Lemma up_to_colon (t : string) :
  exists b rest,
    t = b +:+ rest /\ colon_free b /\
    (rest = EmptyString \/ exists r, rest = ":" +:+ r).
Proof.
  induction t as [|c t IH].
  - exists EmptyString, EmptyString. split; [reflexivity|]. split; [apply colon_free_nil | now left].
  - destruct (Ascii.eqb_spec c ":"%char) as [->|N].
    + exists EmptyString, (String ":" t). split; [reflexivity|].
      split; [apply colon_free_nil | right; now exists t].
    + destruct IH as (b & rest & -> & Fb & Hr).
      exists (String c b), rest. split; [reflexivity|].
      split; [now apply colon_free_cons | exact Hr].
Qed.

(** X14.  When [userName] is absent or null, the actor's name has no colon
    in it, and it is a piece of the string form [p] of [principalId]: all of
    [p] when [p] has no colon, and otherwise what stands in [p] between its
    first colon and the next one (or the end). *)
Theorem X14_actor_name_is_a_piece_of_principalId (L : Lib) (userIdentity : object)
    (tr : list event) :
  index userIdentity "userName" = VNil ->
  exists name,
    actorName L userIdentity tr = (Ok name, tr) /\
    colon_free name /\
    (name = fmt_s L (index userIdentity "principalId") \/
     exists a rest,
       fmt_s L (index userIdentity "principalId") = a +:+ ":" +:+ name +:+ rest /\
       colon_free a /\
       (rest = EmptyString \/ exists r, rest = ":" +:+ r)).
Proof.
  intros HU. unfold actorName. rewrite !Sprintf_s, HU. cbn [isNil negb].
  set (p := fmt_s L (index userIdentity "principalId")).
  destruct (Contains p ":") eqn:C.
  - destruct (up_to_colon p) as (a & rest & Hp & Fa & [-> | [t ->]]).
    { exfalso. rewrite append_nil_r in Hp. subst a.
      apply Contains_colon_false in Fa. congruence. }
    destruct (up_to_colon t) as (b & rest & -> & Fb & Hr).
    assert (E : nth_error (Split p ":") 1 = Some b).
    { unfold Split. rewrite Hp, (Split_scan_cut _ a _ Fa).
      destruct Hr as [-> | [r ->]].
      - rewrite append_nil_r, (Split_scan_last _ b Fb). reflexivity.
      - rewrite (Split_scan_cut _ b _ Fb). reflexivity. }
    unfold at_index. rewrite E. rewrite (bind_Ok _ _ _ b tr) by reflexivity.
    exists b. split; [reflexivity|]. split; [exact Fb|]. right.
    exists a, rest. auto.
  - rewrite (bind_Ok _ _ _ p tr) by reflexivity.
    exists p. split; [reflexivity|]. split; [now apply Contains_colon_false | now left].
Qed.

(** X14 at a principal with two colons. *)
Lemma X14_witness :
  exists name,
    actorName plainLib (mkRecord [("principalId", VString "AROAEXAMPLE:session:bob")]) [] =
      (Ok name, []) /\
    colon_free name.
Proof.
  destruct (X14_actor_name_is_a_piece_of_principalId plainLib
              (mkRecord [("principalId", VString "AROAEXAMPLE:session:bob")]) [])
    as (name & H1 & H2 & _); [vm_compute; reflexivity|].
  exists name. split; assumption.
Defined.



(** X16.  The two rules that mention [Coral/Netty4] together: a record named
    [AssumeRole] whose user agent is ["Coral/Netty4"] is suppressed when its
    invoker is the internal platform or one of the four trusted services, and
    is notified for every other invoker (also a missing one), because the
    allow-list of user agents lists ["Coral/Netty4"]. *)
Theorem X16_AssumeRole_through_the_internal_SDK (L : Lib) (W : World) (evt : S3EventRecord)
    (record : object) (tr : list event) :
  index record "eventName" = VString "AssumeRole" ->
  record !! "userAgent" = Some (VString "Coral/Netty4") ->
  let invokedBy := index (fst (asMap (index record "userIdentity"))) "invokedBy" in
  ((exists s, In s ("AWS Internal" :: trustedInvokers) /\ invokedBy = VString s) ->
   fst (filterRecord L W evt record tr) = Ok Suppress) /\
  ((forall s, In s ("AWS Internal" :: trustedInvokers) -> invokedBy <> VString s) ->
   fst (filterRecord L W evt record tr) = Ok Notify).
Proof.
  intros Hen Hua invokedBy. rewrite filterRecord_verdict. fold invokedBy.
  rewrite Hen, Hua, eventNameSwitch_AssumeRole.
  assert (A : existsb (fun t => holds L t "Coral/Netty4") allowList = true)
    by (vm_compute; reflexivity).
  rewrite A. split.
  - intros (s & [<- | Hin] & Hs).
    + apply eqString_spec in Hs. now rewrite Hs.
    + destruct (eqString invokedBy "AWS Internal"); [reflexivity|].
      assert (T : assumeRole record (fst (asMap (index record "userIdentity"))) = Continue).
      { apply assumeRole_spec. split; [now apply index_Some | eauto]. }
      now rewrite T.
  - intros Hno.
    assert (I : eqString invokedBy "AWS Internal" = false).
    { apply eqString_other. apply Hno. now left. }
    rewrite I.
    destruct (assumeRole record (fst (asMap (index record "userIdentity")))) eqn:T; [|reflexivity].
    exfalso. apply assumeRole_spec in T. destruct T as (_ & s & Hin & Hs).
    apply (Hno s); [now right | exact Hs].
Qed.

(** X16 at a role assumed on behalf of a service outside the trusted four. *)
Lemma X16_witness :
  fst (filterRecord plainLib quietWorld sampleEvt glueAssumeRoleRecord []) = Ok Notify.
Proof.
  apply (X16_AssumeRole_through_the_internal_SDK plainLib quietWorld sampleEvt
           glueAssumeRoleRecord []).
  - vm_compute; reflexivity.
  - vm_compute; reflexivity.
  - intros s Hin. simpl in Hin. decompose [or] Hin; subst; try contradiction;
      vm_compute; discriminate.
Defined.

(** *** Objects *)

Ltac next_byte s :=
  let b0 := fresh "b" in let b1 := fresh "b" in let b2 := fresh "b" in let b3 := fresh "b" in
  let b4 := fresh "b" in let b5 := fresh "b" in let b6 := fresh "b" in let b7 := fresh "b" in
  destruct s as [|[b0 b1 b2 b3 b4 b5 b6 b7] s]; [reflexivity|];
  destruct b0; try reflexivity; destruct b1; try reflexivity;
  destruct b2; try reflexivity; destruct b3; try reflexivity;
  destruct b4; try reflexivity; destruct b5; try reflexivity;
  destruct b6; try reflexivity; destruct b7; try reflexivity.

(** The content type is compared with the literal, byte for byte. *)
Lemma gzip_content_type {A : Type} (ct : string) (x y : A) :
  match ct with
  | "application/x-gzip" => x
  | _ => y
  end = if String.eqb ct "application/x-gzip" then x else y.
Proof. do 18 next_byte ct. destruct ct; reflexivity. Qed.

Lemma readLogFile_plain (L : Lib) (object : GetObjectOutput) :
  ContentType object <> Some "application/x-gzip" ->
  readLogFile L object =
    match json_Unmarshal L (Body object) with
    | inr err => inr ("unmarshalling s3 object to CloudTrailFile: " +:+ err)
    | inl logFile => inl logFile
    end.
Proof.
  intros H. unfold readLogFile. destruct (ContentType object) as [ct|]; [|reflexivity].
  rewrite gzip_content_type.
  destruct (String.eqb_spec ct "application/x-gzip") as [->|]; [congruence | reflexivity].
Qed.

Lemma readLogFile_gzip (L : Lib) (object : GetObjectOutput) :
  ContentType object = Some "application/x-gzip" ->
  readLogFile L object =
    match gzip_NewReader L (Body object) with
    | Some err => inr ("extracting json.gz file: " +:+ err)
    | None =>
      match gzip_Read L (Body object) with
      | inr err => inr ("Error reading from logFileBlob: " +:+ err)
      | inl bytes =>
        match json_Unmarshal L bytes with
        | inr err => inr ("unmarshalling s3 object to CloudTrailFile: " +:+ err)
        | inl logFile => inl logFile
        end
      end
    end.
Proof.
  intros H. unfold readLogFile. rewrite H.
  destruct (gzip_NewReader L (Body object)); [reflexivity|].
  now destruct (gzip_Read L (Body object)).
Qed.

(** X17.  [readLogFile] decompresses an object exactly when its content type
    is ["application/x-gzip"], to the letter: with any other content type, or
    none, the body goes to the JSON decoder as it is and gzip is not
    consulted.  A file it returns is one the decoder returned, and an error
    it returns says which of the three steps failed. *)
Theorem X17_decompressed_only_as_gzip (L : Lib) (object : GetObjectOutput) :
  (ContentType object <> Some "application/x-gzip" ->
   readLogFile L object =
     match json_Unmarshal L (Body object) with
     | inr err => inr ("unmarshalling s3 object to CloudTrailFile: " +:+ err)
     | inl logFile => inl logFile
     end) /\
  (forall logFile, readLogFile L object = inl logFile ->
   exists bytes,
     json_Unmarshal L bytes = inl logFile /\
     (ContentType object <> Some "application/x-gzip" /\ bytes = Body object \/
      ContentType object = Some "application/x-gzip" /\
      gzip_NewReader L (Body object) = None /\ gzip_Read L (Body object) = inl bytes)) /\
  (forall err, readLogFile L object = inr err ->
   exists cause,
     err = "extracting json.gz file: " +:+ cause \/
     err = "Error reading from logFileBlob: " +:+ cause \/
     err = "unmarshalling s3 object to CloudTrailFile: " +:+ cause).
Proof.
  split; [apply readLogFile_plain|].
  destruct (option_eq_dec (ContentType object) (Some "application/x-gzip")) as [G|P].
  - rewrite (readLogFile_gzip L object G).
    destruct (gzip_NewReader L (Body object)) as [e|] eqn:N.
    { split; [discriminate|]. intros err H. inversion H. eauto. }
    destruct (gzip_Read L (Body object)) as [bytes|e] eqn:R.
    + destruct (json_Unmarshal L bytes) as [f|e] eqn:J.
      * split; [|discriminate]. intros f' H. inversion H; subst. exists bytes. auto.
      * split; [discriminate|]. intros err H. inversion H. eauto.
    + split; [discriminate|]. intros err H. inversion H. eauto.
  - rewrite (readLogFile_plain L object P).
    destruct (json_Unmarshal L (Body object)) as [f|e] eqn:J.
    + split; [|discriminate]. intros f' H. inversion H; subst. exists (Body object). auto.
    + split; [discriminate|]. intros err H. inversion H. eauto.
Qed.

(** X17 at an object sent as [application/gzip]: it is not decompressed. *)
Lemma X17_witness :
  readLogFile fileLib {| ContentType := Some "application/gzip"; Body := "{...}" |} =
    inl {| Records := [readRecord; consoleRecord] |}.
Proof.
  destruct (X17_decompressed_only_as_gzip fileLib
              {| ContentType := Some "application/gzip"; Body := "{...}" |}) as [H _].
  rewrite H; [reflexivity | discriminate].
Defined.

Lemma skip_test_spec (key : string) :
  Contains key "/CloudTrail-Digest/" || Contains key "/Config/" = true <-> has_marker key.
Proof.
  unfold has_marker. rewrite orb_true_iff, !Contains_spec. reflexivity.
Qed.

Lemma fetches_app (a b : list event) : fetches (a ++ b) = fetches a ++ fetches b.
Proof.
  induction a as [|e a IH]; [reflexivity|].
  destruct e; simpl; rewrite IH; reflexivity.
Qed.

(** [Stream] on a key that is fetched, step by step. *)
Lemma Stream_fetched (L : Lib) (W : World) (evt : S3EventRecord) (tr : list event) :
  ~ has_marker (ObjectKey evt) ->
  Stream L W evt tr =
    match GetObject W (BucketName evt) (ObjectKey evt) with
    | inr (AwsError m) =>
      (Ok (Some (ObjectKey evt +:+ ": " +:+ "AWS Error: " +:+ m)),
       tr ++ [S3GetObject (BucketName evt) (ObjectKey evt)])
    | inr (OtherError m) =>
      (Ok (Some (ObjectKey evt +:+ ": " +:+ "Error getting S3 Object: " +:+ m)),
       tr ++ [S3GetObject (BucketName evt) (ObjectKey evt)])
    | inl obj =>
      match readLogFile L obj with
      | inr cause =>
        (Ok (Some (ObjectKey evt +:+ ": " +:+ cause)),
         tr ++ [S3GetObject (BucketName evt) (ObjectKey evt)])
      | inl logFile =>
        match filterRecords L W evt (Records logFile)
                (tr ++ [S3GetObject (BucketName evt) (ObjectKey evt)]) with
        | (Ok _, tr') => (Ok None, tr')
        | (Panicked msg, tr') => (Panicked msg, tr')
        end
      end
    end.
Proof.
  intros HM.
  assert (C : Contains (ObjectKey evt) "/CloudTrail-Digest/" || Contains (ObjectKey evt) "/Config/" = false).
  { destruct (_ || _) eqn:E; [|reflexivity]. apply skip_test_spec in E. contradiction. }
  unfold Stream. rewrite (bind_Ok _ _ _ tt tr) by reflexivity.
  unfold fetchLogFromS3. rewrite C.
  unfold bind at 1. unfold bind at 1. unfold emit.
  destruct (GetObject W (BucketName evt) (ObjectKey evt)) as [obj|[m|m]]; try reflexivity.
  unfold ret at 1. cbv iota beta.
  destruct (readLogFile L obj) as [logFile|cause]; [|reflexivity].
  unfold FilterRecords, bind.
  destruct (filterRecords L W evt (Records logFile) _) as [[vs|msg] tr']; reflexivity.
Qed.

Lemma has_marker_dec (key : string) : has_marker key \/ ~ has_marker key.
Proof.
  destruct (Contains key "/CloudTrail-Digest/" || Contains key "/Config/") eqn:E.
  - left. now apply skip_test_spec.
  - right. intros H. apply skip_test_spec in H. congruence.
Qed.

Lemma Stream_skipped (L : Lib) (W : World) (evt : S3EventRecord) (tr : list event) :
  has_marker (ObjectKey evt) -> Stream L W evt tr = (Ok None, tr).
Proof.
  intros H. apply skip_test_spec in H.
  unfold Stream. rewrite (bind_Ok _ _ _ tt tr) by reflexivity.
  unfold fetchLogFromS3. rewrite H. reflexivity.
Qed.

(** The records of a file ask nothing of the bucket. *)
Lemma filterRecords_fetches (L : Lib) (W : World) (evt : S3EventRecord) (records : list object)
    (tr : list event) :
  fetches (snd (filterRecords L W evt records tr)) = fetches tr.
Proof.
  destruct (filterRecords_added L W evt records tr) as (done & _ & ->).
  rewrite fetches_app.
  assert (Z : fetches (flat_map (fun record => snd (filterRecord L W evt record [])) done) = []).
  { induction done as [|r done IH]; [reflexivity|].
    cbn [flat_map]. rewrite fetches_app, IH, app_nil_r.
    destruct (filterRecord_added L W evt r) as [(_ & name & _ & ->) | (_ & ->)]; [|reflexivity].
    unfold delivery. destruct (LookupEnv W "SLACK_WEBHOOK") as [url|]; [|reflexivity].
    now destruct (http_NewRequest L url). }
  rewrite Z. apply app_nil_r.
Qed.

(** X18.  [Stream] returns an error exactly when the object is one it
    fetches and either the request to the bucket fails or the object cannot
    be read as a file.  The error is the key, a colon and the cause; by then
    one request has been made and no record has been looked at: nothing is
    logged and nothing is posted.  Once a file is read, [Stream] returns
    [nil] or panics, it never returns an error. *)
Theorem X18_Stream_error_iff (L : Lib) (W : World) (evt : S3EventRecord) (err : string)
    (tr tr' : list event) :
  Stream L W evt tr = (Ok (Some err), tr') <->
  ~ has_marker (ObjectKey evt) /\
  tr' = tr ++ [S3GetObject (BucketName evt) (ObjectKey evt)] /\
  exists cause,
    err = ObjectKey evt +:+ ": " +:+ cause /\
    ((exists m, GetObject W (BucketName evt) (ObjectKey evt) = inr (AwsError m) /\
                cause = "AWS Error: " +:+ m) \/
     (exists m, GetObject W (BucketName evt) (ObjectKey evt) = inr (OtherError m) /\
                cause = "Error getting S3 Object: " +:+ m) \/
     (exists obj, GetObject W (BucketName evt) (ObjectKey evt) = inl obj /\
                  readLogFile L obj = inr cause)).
Proof.
  destruct (has_marker_dec (ObjectKey evt)) as [HM | HM].
  { rewrite (Stream_skipped L W evt tr HM). split; [discriminate | tauto]. }
  rewrite (Stream_fetched L W evt tr HM).
  destruct (GetObject W (BucketName evt) (ObjectKey evt)) as [obj|[m|m]] eqn:G.
  - destruct (readLogFile L obj) as [logFile|cause] eqn:R.
    + destruct (filterRecords L W evt (Records logFile) _) as [[vs|msg] t2].
      * split; [discriminate|].
        intros (_ & _ & c & _ & [(m & H & _) | [(m & H & _) | (o & H & H')]]);
          try discriminate H. inversion H; subst. congruence.
      * split; [discriminate|].
        intros (_ & _ & c & _ & [(m & H & _) | [(m & H & _) | (o & H & H')]]);
          try discriminate H. inversion H; subst. congruence.
    + split.
      * intros H. inversion H; subst. split; [exact HM|]. split; [reflexivity|].
        exists cause. split; [reflexivity|]. right; right. eauto.
      * intros (_ & -> & c & -> & [(m & H & _) | [(m & H & _) | (o & H & H')]]);
          try discriminate H. inversion H; subst. congruence.
  - split.
    + intros H. inversion H; subst. split; [exact HM|]. split; [reflexivity|].
      eexists. split; [reflexivity|]. left. eauto.
    + intros (_ & -> & c & -> & [(m' & H & ->) | [(m' & H & _) | (o & H & _)]]);
        try discriminate H. inversion H; subst. reflexivity.
  - split.
    + intros H. inversion H; subst. split; [exact HM|]. split; [reflexivity|].
      eexists. split; [reflexivity|]. right; left. eauto.
    + intros (_ & -> & c & -> & [(m' & H & _) | [(m' & H & ->) | (o & H & _)]]);
        try discriminate H. inversion H; subst. reflexivity.
Qed.

(** X18 at a key the bucket does not hold. *)
Lemma X18_witness :
  Stream plainLib quietWorld missingEvt [] =
    (Ok (Some "AWSLogs/1/CloudTrail/missing.json: AWS Error: NoSuchKey"),
     [S3GetObject "trail" "AWSLogs/1/CloudTrail/missing.json"]).
Proof.
  apply (X18_Stream_error_iff plainLib quietWorld missingEvt).
  split; [|split; [reflexivity|]].
  - intros H. apply skip_test_spec in H. vm_compute in H. discriminate.
  - exists "AWS Error: NoSuchKey". split; [reflexivity|]. left. now exists "NoSuchKey".
Defined.

(** X19.  An object whose key holds neither marker is requested from the
    bucket exactly once, before anything else is done, however its
    processing ends; an object whose key holds a marker is never requested. *)
Theorem X19_one_request_per_object (L : Lib) (W : World) (evt : S3EventRecord)
    (tr : list event) :
  (has_marker (ObjectKey evt) -> snd (Stream L W evt tr) = tr) /\
  (~ has_marker (ObjectKey evt) ->
   exists rest,
     snd (Stream L W evt tr) = tr ++ S3GetObject (BucketName evt) (ObjectKey evt) :: rest /\
     fetches rest = []).
Proof.
  split.
  - intros HM. now rewrite (Stream_skipped L W evt tr HM).
  - intros HM. rewrite (Stream_fetched L W evt tr HM).
    destruct (GetObject W (BucketName evt) (ObjectKey evt)) as [obj|[m|m]];
      try (exists []; split; reflexivity).
    destruct (readLogFile L obj) as [logFile|cause]; [|exists []; split; reflexivity].
    pose proof (filterRecords_fetches L W evt (Records logFile)
                  (tr ++ [S3GetObject (BucketName evt) (ObjectKey evt)])) as F.
    destruct (filterRecords_added L W evt (Records logFile)
                (tr ++ [S3GetObject (BucketName evt) (ObjectKey evt)])) as (done & _ & E).
    exists (flat_map (fun record => snd (filterRecord L W evt record [])) done).
    rewrite E in F. rewrite !fetches_app in F.
    destruct (filterRecords L W evt (Records logFile) _) as [[vs|msg] t2];
      simpl in E; subst t2; (split; [simpl; now rewrite <- app_assoc|]);
      simpl in F; apply (app_inv_head (fetches tr ++ [(BucketName evt, ObjectKey evt)]));
      rewrite app_nil_r; exact F.
Qed.

(** X19 at a key the bucket does not hold. *)
Lemma X19_witness :
  exists rest,
    snd (Stream plainLib quietWorld missingEvt []) =
      S3GetObject "trail" "AWSLogs/1/CloudTrail/missing.json" :: rest /\
    fetches rest = [].
Proof.
  destruct (X19_one_request_per_object plainLib quietWorld missingEvt []) as [_ H].
  apply H. intros K. apply skip_test_spec in K. vm_compute in K. discriminate.
Defined.

(** X20.  End to end on a readable object: when the request succeeds, the
    object is read as a file and no record of it panics, [Stream] returns
    [nil] and has added the request followed by the events of the records,
    in file order. *)
Theorem X20_readable_object_is_processed (L : Lib) (W : World) (evt : S3EventRecord)
    (obj : GetObjectOutput) (logFile : CloudTrailFile) (tr : list event) :
  ~ has_marker (ObjectKey evt) ->
  GetObject W (BucketName evt) (ObjectKey evt) = inl obj ->
  readLogFile L obj = inl logFile ->
  Forall (fun record => forall msg, fst (filterRecord L W evt record []) <> Panicked msg)
         (Records logFile) ->
  Stream L W evt tr =
    (Ok None,
     tr ++ S3GetObject (BucketName evt) (ObjectKey evt)
       :: flat_map (fun record => snd (filterRecord L W evt record [])) (Records logFile)).
Proof.
  intros HM G R Hok. rewrite (Stream_fetched L W evt tr HM), G, R.
  assert (E : forall records t,
             Forall (fun record => forall msg, fst (filterRecord L W evt record []) <> Panicked msg)
                    records ->
             exists vs, filterRecords L W evt records t =
               (Ok vs, t ++ flat_map (fun record => snd (filterRecord L W evt record [])) records)).
  { induction records as [|r rs IH]; intros t Hf.
    - exists []. simpl. unfold ret. now rewrite app_nil_r.
    - inversion Hf as [|? ? Hr Hrs]; subst. cbn [filterRecords]. unfold bind at 1.
      rewrite filterRecord_frame.
      destruct (fst (filterRecord L W evt r [])) as [v|msg] eqn:V; [|exfalso; now apply (Hr msg)].
      destruct (IH (t ++ snd (filterRecord L W evt r [])) Hrs) as [vs Hvs].
      exists (v :: vs). unfold bind at 1. rewrite Hvs. unfold ret.
      cbn [flat_map]. now rewrite app_assoc. }
  destruct (E (Records logFile) (tr ++ [S3GetObject (BucketName evt) (ObjectKey evt)]) Hok)
    as [vs ->].
  now rewrite <- app_assoc.
Qed.

(** X20 at a plain object of two records. *)
Lemma X20_witness :
  exists f,
    Stream fileLib fileWorld sampleEvt [] =
      (Ok None, [S3GetObject "trail" "AWSLogs/1/CloudTrail/eu-west-1/2020/01/01/a.json.gz";
                 LogEntry InfoLevel "Event" (Some f)]).
Proof.
  eexists.
  rewrite (X20_readable_object_is_processed fileLib fileWorld sampleEvt
             {| ContentType := Some "application/json"; Body := "{...}" |}
             {| Records := [readRecord; consoleRecord] |} []).
  - vm_compute. reflexivity.
  - intros K. apply skip_test_spec in K. vm_compute in K. discriminate.
  - reflexivity.
  - vm_compute. reflexivity.
  - repeat constructor; intros msg; vm_compute; discriminate.
Defined.

(** *** The handler *)

Lemma Stream_frame (L : Lib) (W : World) (evt : S3EventRecord) (tr : list event) :
  Stream L W evt tr = (fst (Stream L W evt []), tr ++ snd (Stream L W evt [])).
Proof. apply framed_Stream. Qed.

(** References that are handled without an error are passed one by one. *)
Lemma streamAll_passes (L : Lib) (W : World) (before more : list S3EventRecord)
    (tr : list event) :
  Forall (fun r => fst (Stream L W r []) = Ok None) before ->
  streamAll L W (before ++ more) tr =
    streamAll L W more (tr ++ flat_map (fun r => snd (Stream L W r [])) before).
Proof.
  revert tr. induction before as [|r before IH]; intros tr H.
  - simpl. now rewrite app_nil_r.
  - pose proof (List.Forall_inv H) as Hr. pose proof (List.Forall_inv_tail H) as Hb.
    cbv beta in Hr. cbn [app streamAll]. unfold bind.
    rewrite Stream_frame, Hr. rewrite (IH _ Hb). cbn [flat_map].
    now rewrite app_assoc.
Qed.

(** X21.  [S3Handler] logs the event, then handles the references in the
    order they are listed.  When none of them fails it returns [nil] and has
    handled all of them.  It stops at the first reference for which [Stream]
    returns an error and returns that error: the references after it are
    never requested. *)
Theorem X21_handler_stops_at_the_first_error (L : Lib) (W : World)
    (before : list S3EventRecord) (tr : list event) :
  Forall (fun r => fst (Stream L W r []) = Ok None) before ->
  S3Handler L W before tr =
    (Ok None,
     tr ++ LogEntry InfoLevel ("S3 event: " +:+ fmt_S3Event L before) None
        :: flat_map (fun r => snd (Stream L W r [])) before) /\
  forall failing rest err,
    fst (Stream L W failing []) = Ok (Some err) ->
    S3Handler L W (before ++ failing :: rest) tr =
      (Ok (Some err),
       tr ++ LogEntry InfoLevel ("S3 event: " +:+ fmt_S3Event L (before ++ failing :: rest)) None
          :: flat_map (fun r => snd (Stream L W r [])) (before ++ [failing])).
Proof.
  intros H. split.
  - unfold S3Handler. rewrite (bind_Ok _ _ _ tt (tr ++ [LogEntry InfoLevel
      ("S3 event: " +:+ fmt_S3Event L before) None])) by reflexivity.
    pose proof (streamAll_passes L W before []
                  (tr ++ [LogEntry InfoLevel ("S3 event: " +:+ fmt_S3Event L before) None]) H) as P.
    rewrite app_nil_r in P. rewrite P.
    cbn [streamAll]. unfold ret. now rewrite <- app_assoc.
  - intros failing rest err Hf. unfold S3Handler.
    rewrite (bind_Ok _ _ _ tt (tr ++ [LogEntry InfoLevel
      ("S3 event: " +:+ fmt_S3Event L (before ++ failing :: rest)) None])) by reflexivity.
    rewrite (streamAll_passes L W before (failing :: rest) _ H).
    cbn [streamAll]. unfold bind. rewrite Stream_frame, Hf. unfold ret.
    rewrite flat_map_app. cbn [flat_map]. rewrite app_nil_r.
    now rewrite <- !app_assoc.
Qed.

(** X21 at an event of three references: a digest, a key the bucket does not
    hold, and a third that is never requested. *)
Lemma X21_witness :
  S3Handler plainLib quietWorld [digestEvt; missingEvt; sampleEvt] [] =
    (Ok (Some "AWSLogs/1/CloudTrail/missing.json: AWS Error: NoSuchKey"),
     [LogEntry InfoLevel "S3 event: {}" None;
      S3GetObject "trail" "AWSLogs/1/CloudTrail/missing.json"]).
Proof.
  destruct (X21_handler_stops_at_the_first_error plainLib quietWorld [digestEvt] []) as [_ H].
  - repeat constructor.
  - exact (H missingEvt [sampleEvt] _ eq_refl).
Defined.
